(** * Verification of the token codec and verification handler of
    src/app.jsx (Redsteep medicine-authenticity prototype).

    JavaScript strings are sequences of UTF-16 code units; they are modelled
    as [list Z], one integer in [0, 65535] per code unit.  The browser
    built-ins the code calls ([btoa], [atob], [JSON.stringify],
    [JSON.parse], [String.prototype.trim], [Date]) are embedded following
    the HTML and ECMAScript definitions, since the verified code is the
    composition of those with the code of the file. *)

From Stdlib Require Import String Ascii ZArith List Bool Lia.
Import ListNotations.
Open Scope Z_scope.

(** ** JavaScript strings *)

Definition jsstr := list Z.

(** A string literal of the source, as its code units. *)
Definition js (s : string) : jsstr :=
  map (fun a => Z.of_nat (nat_of_ascii a)) (list_ascii_of_string s).

Fixpoint jsstr_eqb (a b : jsstr) : bool :=
  match a, b with
  | [], [] => true
  | x :: a', y :: b' => (x =? y) && jsstr_eqb a' b'
  | _, _ => false
  end.

Lemma jsstr_eqb_eq : forall a b, jsstr_eqb a b = true <-> a = b.
Proof.
  induction a as [|x a IH]; intros [|y b]; simpl; try (split; congruence).
  rewrite andb_true_iff, Z.eqb_eq, IH; split.
  - intros [-> ->]; reflexivity.
  - intros H; injection H; auto.
Qed.

(** [String.prototype.trim]: the code units of WhiteSpace and
    LineTerminator (ECMAScript 22.1.3.32, 12.2, 12.3; Zs of Unicode). *)
Definition js_is_trim_space (c : Z) : bool :=
  existsb (Z.eqb c)
    [9; 10; 11; 12; 13; 32; 160; 5760; 8192; 8193; 8194; 8195; 8196; 8197;
     8198; 8199; 8200; 8201; 8202; 8232; 8233; 8239; 8287; 12288; 65279].

Fixpoint drop_leading (p : Z -> bool) (s : jsstr) : jsstr :=
  match s with
  | [] => []
  | c :: r => if p c then drop_leading p r else s
  end.

Definition js_trim (s : jsstr) : jsstr :=
  rev (drop_leading js_is_trim_space (rev (drop_leading js_is_trim_space s))).

(** ** Base64: [btoa] and [atob] (HTML, forgiving-base64) *)

Definition b64_char (v : Z) : Z :=
  if v <? 26 then 65 + v
  else if v <? 52 then 97 + (v - 26)
  else if v <? 62 then 48 + (v - 52)
  else if v =? 62 then 43 else 47.

Definition b64_value (c : Z) : option Z :=
  if (65 <=? c) && (c <=? 90) then Some (c - 65)
  else if (97 <=? c) && (c <=? 122) then Some (c - 97 + 26)
  else if (48 <=? c) && (c <=? 57) then Some (c - 48 + 52)
  else if c =? 43 then Some 62
  else if c =? 47 then Some 63
  else None.

(** The characters of one group of three bytes, and of a final group of
    two or one bytes, before the padding [=] is added. *)
Definition b64_group3 (a b c : Z) : jsstr :=
  [b64_char (a / 4); b64_char ((a mod 4) * 16 + b / 16);
   b64_char ((b mod 16) * 4 + c / 64); b64_char (c mod 64)].

Fixpoint b64_core (l : list Z) : jsstr :=
  match l with
  | a :: b :: c :: r => b64_group3 a b c ++ b64_core r
  | [a; b] => [b64_char (a / 4); b64_char ((a mod 4) * 16 + b / 16);
               b64_char ((b mod 16) * 4)]
  | [a] => [b64_char (a / 4); b64_char ((a mod 4) * 16)]
  | [] => []
  end.

Definition b64_padding (n : nat) : jsstr :=
  match (n mod 3)%nat with
  | 1%nat => [61; 61]
  | 2%nat => [61]
  | _ => []
  end.

(** [btoa] throws InvalidCharacterError on a code unit above 255;
    the exception is [None]. *)
Definition btoa (s : jsstr) : option jsstr :=
  if forallb (fun c => (0 <=? c) && (c <=? 255)) s
  then Some (b64_core s ++ b64_padding (length s))
  else None.

Definition is_ascii_whitespace (c : Z) : bool :=
  existsb (Z.eqb c) [9; 10; 12; 13; 32].

(** Step 2 of forgiving-base64 decode: when the length is a multiple of
    four, remove one or two trailing [=]. *)
Definition strip_padding (d : jsstr) : jsstr :=
  if (Nat.modulo (length d) 4 =? 0)%nat then
    match rev d with
    | x :: y :: r =>
        if (x =? 61) && (y =? 61) then rev r
        else if x =? 61 then rev (y :: r) else d
    | [x] => if x =? 61 then [] else d
    | [] => d
    end
  else d.

Fixpoint map_option {A B} (f : A -> option B) (l : list A) : option (list B) :=
  match l with
  | [] => Some []
  | x :: r =>
      match f x, map_option f r with
      | Some y, Some ys => Some (y :: ys)
      | _, _ => None
      end
  end.

(** Decoding of the six-bit values, four at a time; the bits left over in
    a final group of three or two values are discarded. *)
Fixpoint b64_decode_values (l : list Z) : option (list Z) :=
  match l with
  | s0 :: s1 :: s2 :: s3 :: r =>
      match b64_decode_values r with
      | Some bs => Some ([s0 * 4 + s1 / 16; (s1 mod 16) * 16 + s2 / 4;
                          (s2 mod 4) * 64 + s3] ++ bs)
      | None => None
      end
  | [s0; s1; s2] => Some [s0 * 4 + s1 / 16; (s1 mod 16) * 16 + s2 / 4]
  | [s0; s1] => Some [s0 * 4 + s1 / 16]
  | [_] => None
  | [] => Some []
  end.

(** [atob] throws InvalidCharacterError when forgiving-base64 decode
    fails; the exception is [None]. *)
Definition atob (s : jsstr) : option jsstr :=
  let d := strip_padding (filter (fun c => negb (is_ascii_whitespace c)) s) in
  if (Nat.modulo (length d) 4 =? 1)%nat then None
  else match map_option b64_value d with
       | Some vs => b64_decode_values vs
       | None => None
       end.

(** ** JSON values, [JSON.stringify] and [JSON.parse] *)

#[local] Set Warnings "-register-all".

(** A parsed JSON value.  A number keeps its source text: the code only
    compares parsed values with strings by [===], so the numeric value of
    a number never matters. *)
Inductive json :=
| JNull
| JBool (b : bool)
| JNum (lexeme : jsstr)
| JStr (s : jsstr)
| JArr (elems : list json)
| JObj (members : list (jsstr * json)).

(** *** [JSON.stringify] of an object whose property values are strings
    (QuoteJSONString, ECMAScript 25.5.2.3) *)

Definition hex_digit (d : Z) : Z := if d <? 10 then 48 + d else 87 + d.

Definition unicode_escape (c : Z) : jsstr :=
  [92; 117; hex_digit (c / 4096); hex_digit ((c / 256) mod 16);
   hex_digit ((c / 16) mod 16); hex_digit (c mod 16)].

Definition is_leading_surrogate (c : Z) : bool := (55296 <=? c) && (c <=? 56319).
Definition is_trailing_surrogate (c : Z) : bool := (56320 <=? c) && (c <=? 57343).

Definition quote_unit (c : Z) : jsstr :=
  if c =? 8 then [92; 98]
  else if c =? 9 then [92; 116]
  else if c =? 10 then [92; 110]
  else if c =? 12 then [92; 102]
  else if c =? 13 then [92; 114]
  else if c =? 34 then [92; 34]
  else if c =? 92 then [92; 92]
  else if c <? 32 then unicode_escape c
  else [c].

(** Surrogate pairs are copied; a lone surrogate is written as [\uXXXX]. *)
Fixpoint quote_units (s : jsstr) : jsstr :=
  match s with
  | [] => []
  | c :: r =>
      if is_leading_surrogate c then
        match r with
        | d :: r' =>
            if is_trailing_surrogate d then c :: d :: quote_units r'
            else unicode_escape c ++ quote_units r
        | [] => unicode_escape c
        end
      else if is_trailing_surrogate c then unicode_escape c ++ quote_units r
      else quote_unit c ++ quote_units r
  end.

Definition quote_json_string (s : jsstr) : jsstr := 34 :: quote_units s ++ [34].

Fixpoint stringify_members (ms : list (jsstr * jsstr)) : jsstr :=
  match ms with
  | [] => []
  | [(k, v)] => quote_json_string k ++ 58 :: quote_json_string v
  | (k, v) :: r => quote_json_string k ++ 58 :: quote_json_string v ++ 44 :: stringify_members r
  end.

Definition json_stringify_strings (ms : list (jsstr * jsstr)) : jsstr :=
  123 :: stringify_members ms ++ [125].

(** *** [JSON.parse] (ECMA-404 grammar) *)

Definition is_json_ws (c : Z) : bool := existsb (Z.eqb c) [9; 10; 13; 32].

Fixpoint skip_ws (s : jsstr) : jsstr :=
  match s with
  | c :: r => if is_json_ws c then skip_ws r else s
  | [] => []
  end.

Definition hex_value (c : Z) : option Z :=
  if (48 <=? c) && (c <=? 57) then Some (c - 48)
  else if (97 <=? c) && (c <=? 102) then Some (c - 87)
  else if (65 <=? c) && (c <=? 70) then Some (c - 55)
  else None.

Definition cons_fst (c : Z) (p : option (jsstr * jsstr)) : option (jsstr * jsstr) :=
  match p with
  | Some (str, r) => Some (c :: str, r)
  | None => None
  end.

(** The body of a string literal, after its opening quote: the decoded
    code units and the text after the closing quote. *)
Fixpoint parse_string (s : jsstr) : option (jsstr * jsstr) :=
  match s with
  | [] => None
  | c :: r =>
      if c =? 34 then Some ([], r)
      else if c =? 92 then
        match r with
        | e :: r' =>
            if e =? 34 then cons_fst 34 (parse_string r')
            else if e =? 92 then cons_fst 92 (parse_string r')
            else if e =? 47 then cons_fst 47 (parse_string r')
            else if e =? 98 then cons_fst 8 (parse_string r')
            else if e =? 102 then cons_fst 12 (parse_string r')
            else if e =? 110 then cons_fst 10 (parse_string r')
            else if e =? 114 then cons_fst 13 (parse_string r')
            else if e =? 116 then cons_fst 9 (parse_string r')
            else if e =? 117 then
              match r' with
              | h1 :: h2 :: h3 :: h4 :: r'' =>
                  match hex_value h1, hex_value h2, hex_value h3, hex_value h4 with
                  | Some v1, Some v2, Some v3, Some v4 =>
                      cons_fst (v1 * 4096 + v2 * 256 + v3 * 16 + v4) (parse_string r'')
                  | _, _, _, _ => None
                  end
              | _ => None
              end
            else None
        | [] => None
        end
      else if c <? 32 then None
      else cons_fst c (parse_string r)
  end.

Definition is_digit (c : Z) : bool := (48 <=? c) && (c <=? 57).

Fixpoint digits (s : jsstr) : jsstr * jsstr :=
  match s with
  | c :: r => if is_digit c then let (ds, r') := digits r in (c :: ds, r') else ([], s)
  | [] => ([], [])
  end.

(** A number: [-]? (0 | [1-9][0-9]* ) (. [0-9]+)? ([eE] [+-]? [0-9]+)?,
    returned with its text. *)
Definition parse_number (s : jsstr) : option (json * jsstr) :=
  let '(sign, s1) := match s with
                     | c :: r => if c =? 45 then ([45], r) else ([], s)
                     | [] => ([], s)
                     end in
  let int_part :=
    match s1 with
    | c :: r =>
        if c =? 48 then Some ([48], r)
        else if (49 <=? c) && (c <=? 57) then Some (digits s1) else None
    | [] => None
    end in
  match int_part with
  | None => None
  | Some (ip, s2) =>
      let frac :=
        match s2 with
        | c :: r =>
            if c =? 46 then
              match digits r with
              | ([], _) => None
              | (ds, r') => Some (46 :: ds, r')
              end
            else Some ([], s2)
        | [] => Some ([], s2)
        end in
      match frac with
      | None => None
      | Some (fp, s3) =>
          let expo :=
            match s3 with
            | e :: r =>
                if (e =? 101) || (e =? 69) then
                  let '(es, r1) := match r with
                                   | c :: r1 => if c =? 43 then ([43], r1)
                                                else if c =? 45 then ([45], r1)
                                                else ([], r)
                                   | [] => ([], r)
                                   end in
                  match digits r1 with
                  | ([], _) => None
                  | (ds, r2) => Some (e :: es ++ ds, r2)
                  end
                else Some ([], s3)
            | [] => Some ([], s3)
            end in
          match expo with
          | None => None
          | Some (xp, s4) => Some (JNum (sign ++ ip ++ fp ++ xp), s4)
          end
      end
  end.

(** [s] starts with the code units [w]; the rest is returned. *)
Fixpoint strip_prefix (w s : jsstr) : option jsstr :=
  match w, s with
  | [], _ => Some s
  | x :: w', c :: s' => if c =? x then strip_prefix w' s' else None
  | _ :: _, [] => None
  end.

(** A value, an object's members and an array's elements.  The fuel
    bounds the nesting; [json_parse] gives one unit per character, and
    every nested call consumes at least one character. *)
Fixpoint parse_value (fuel : nat) (s : jsstr) {struct fuel} : option (json * jsstr) :=
  match fuel with
  | O => None
  | S f =>
      match s with
      | [] => None
      | c :: r =>
          if c =? 123 then
            match skip_ws r with
            | d :: r' => if d =? 125 then Some (JObj [], r') else parse_members f (d :: r') []
            | [] => None
            end
          else if c =? 91 then
            match skip_ws r with
            | d :: r' => if d =? 93 then Some (JArr [], r') else parse_elements f (d :: r') []
            | [] => None
            end
          else if c =? 34 then
            match parse_string r with
            | Some (str, r') => Some (JStr str, r')
            | None => None
            end
          else match strip_prefix (js "true") s with
          | Some r' => Some (JBool true, r')
          | None =>
          match strip_prefix (js "false") s with
          | Some r' => Some (JBool false, r')
          | None =>
          match strip_prefix (js "null") s with
          | Some r' => Some (JNull, r')
          | None => parse_number s
          end end end
      end
  end
with parse_members (fuel : nat) (s : jsstr) (acc : list (jsstr * json))
  {struct fuel} : option (json * jsstr) :=
  match fuel with
  | O => None
  | S f =>
      match s with
      | c :: r =>
          if c =? 34 then
            match parse_string r with
            | Some (k, r1) =>
                match skip_ws r1 with
                | d :: r2 =>
                    if d =? 58 then
                      match parse_value f (skip_ws r2) with
                      | Some (v, r3) =>
                          match skip_ws r3 with
                          | e :: r4 =>
                              if e =? 44 then parse_members f (skip_ws r4) (acc ++ [(k, v)])
                              else if e =? 125 then Some (JObj (acc ++ [(k, v)]), r4)
                              else None
                          | [] => None
                          end
                      | None => None
                      end
                    else None
                | [] => None
                end
            | None => None
            end
          else None
      | [] => None
      end
  end
with parse_elements (fuel : nat) (s : jsstr) (acc : list json)
  {struct fuel} : option (json * jsstr) :=
  match fuel with
  | O => None
  | S f =>
      match parse_value f s with
      | Some (v, r1) =>
          match skip_ws r1 with
          | e :: r2 =>
              if e =? 44 then parse_elements f (skip_ws r2) (acc ++ [v])
              else if e =? 93 then Some (JArr (acc ++ [v]), r2)
              else None
          | [] => None
          end
      | None => None
      end
  end.

(** [JSON.parse] throws SyntaxError on a malformed text; the exception is
    [None]. *)
Definition json_parse (txt : jsstr) : option json :=
  match parse_value (S (List.length txt)) (skip_ws txt) with
  | Some (v, r) => match skip_ws r with
                   | [] => Some v
                   | _ => None
                   end
  | None => None
  end.

(** JSON text written with single quotes in place of double quotes. *)
Definition jq (s : string) : jsstr := map (fun c => if c =? 39 then 34 else c) (js s).

Example json_parse_sample :
  json_parse (jq " { 'a' : [1, -0.5e+3, true, null], 'b':'x\u0041' } ") =
  Some (JObj [(js "a", JArr [JNum (js "1"); JNum (js "-0.5e+3"); JBool true; JNull]);
              (js "b", JStr (js "xA"))]).
Proof. vm_compute. reflexivity. Qed.

Example json_parse_rejects :
  map json_parse [js "01"; js "tru"; js "[1,]"; jq "{'a' 1}"; jq "'\x'"; js "1."]
  = [None; None; None; None; None; None] /\
  map json_parse [js "[]"; js " {} "; jq "[{'a':[]},false]"]
  = [Some (JArr []); Some (JObj []);
     Some (JArr [JObj [(js "a", JArr [])]; JBool false])].
Proof. vm_compute. split; reflexivity. Qed.

(** *** Property access on a parsed value *)

(** [JSON.parse] creates one own property per key, a later duplicate key
    overwriting the earlier value: the last binding wins. *)
Fixpoint assoc_last (ms : list (jsstr * json)) (k : jsstr) : option json :=
  match ms with
  | [] => None
  | (k', v) :: r =>
      match assoc_last r k with
      | Some w => Some w
      | None => if jsstr_eqb k k' then Some v else None
      end
  end.

(** [v.k] for the keys the code reads ([t], [id], [b], [c]): none of them
    is an array index, [length], or a property of Object.prototype, so
    only an object's own property is found; [None] is [undefined]. *)
Definition prop_get (v : json) (k : jsstr) : option json :=
  match v with
  | JObj ms => assoc_last ms k
  | _ => None
  end.

(** ToBoolean.  A number parsed as zero is falsy in JavaScript; that case
    is not decided here because it makes no difference to [decodeToken]:
    a number has no property [t], so both branches return null for it
    (see [decodeToken_number]). *)
Definition js_truthy (v : json) : bool :=
  match v with
  | JNull => false
  | JBool b => b
  | JNum _ => true
  | JStr s => negb (jsstr_eqb s [])
  | JArr _ | JObj _ => true
  end.

(** ToString, as used by the template literal of the duplicate key. *)
Fixpoint js_to_string (v : json) : jsstr :=
  match v with
  | JNull => js "null"
  | JBool true => js "true"
  | JBool false => js "false"
  | JNum lexeme => lexeme
  | JStr s => s
  | JArr es =>
      (fix join (es : list json) : jsstr :=
         match es with
         | [] => []
         | [e] => match e with JNull => [] | _ => js_to_string e end
         | e :: r => match e with JNull => [] | _ => js_to_string e end ++ [44] ++ join r
         end) es
  | JObj _ => js "[object Object]"
  end.

Definition js_to_string_opt (v : option json) : jsstr :=
  match v with
  | Some v => js_to_string v
  | None => js "undefined"
  end.

(** [a === b] where [a] is a string and [b] a property read. *)
Definition str_strict_eq (a : jsstr) (b : option json) : bool :=
  match b with
  | Some (JStr s) => jsstr_eqb a s
  | _ => false
  end.

(** ** The ledger *)

Record batch_record := mk_record {
  id : jsstr;
  name : jsstr;
  batch : jsstr;
  mfg : jsstr;
  exp : jsstr;
  manufacturer : jsstr;
  supplier : jsstr;
  shop : jsstr;
  checksum : jsstr;
  status : jsstr
}.

Definition mockLedger : list batch_record := [
  mk_record (js "MED-001") (js "Paracetamol 500mg (10 tabs)") (js "B456789")
    (js "2025-09-01") (js "2027-08-31") (js "XYZ Pharma Pvt Ltd")
    (js "Sunrise Distributors") (js "Sahil Medicals (Chembur)") (js "f9a2") (js "active");
  mk_record (js "MED-002") (js "Amoxicillin 250mg (10 caps)") (js "B984321")
    (js "2025-08-12") (js "2027-07-31") (js "HealthCore Labs")
    (js "MedRoute Logistics") (js "Sahil Medicals (Chembur)") (js "7c3d") (js "active");
  mk_record (js "MED-003") (js "Cetirizine 10mg (10 tabs)") (js "C772210")
    (js "2025-07-05") (js "2027-06-30") (js "Allied Remedies")
    (js "TrustMed Supply Co.") (js "Sahil Medicals (Chembur)") (js "11be") (js "active");
  mk_record (js "MED-004") (js "Ibuprofen 200mg (10 tabs)") (js "I220015")
    (js "2025-06-18") (js "2027-06-17") (js "NovaRx Industries")
    (js "Lifeline Distributors") (js "Sahil Medicals (Chembur)") (js "c0de") (js "recalled")
].

(** ** [encodeToken] and [decodeToken] *)

Definition marker : jsstr := js "REDSTEEP-DEMO".

(** The payload [{ t, id, b, c }] in property order. *)
Definition payload (row : batch_record) : list (jsstr * jsstr) :=
  [(js "t", marker); (js "id", id row); (js "b", batch row); (js "c", checksum row)].

(** [btoa(JSON.stringify(payload))]; [None] when [btoa] throws. *)
Definition encodeToken (row : batch_record) : option jsstr :=
  btoa (json_stringify_strings (payload row)).

(** [try { JSON.parse(atob(token)); ... } catch (e) { return null; }]:
    [None] is null. *)
Definition decodeToken (token : jsstr) : option json :=
  match atob token with
  | None => None
  | Some txt =>
      match json_parse txt with
      | None => None
      | Some j =>
          if negb (js_truthy j) then None
          else match prop_get j (js "t") with
               | Some (JStr t) => if jsstr_eqb t marker then Some j else None
               | _ => None
               end
      end
  end.

(** The object the round trip is expected to give back. *)
Definition claim_of (row : batch_record) : json :=
  JObj (map (fun '(k, v) => (k, JStr v)) (payload row)).

Example decode_encode_med001 :
  option_map decodeToken (encodeToken (hd (mk_record [] [] [] [] [] [] [] [] [] []) mockLedger))
  = Some (Some (claim_of (hd (mk_record [] [] [] [] [] [] [] [] [] []) mockLedger))).
Proof. vm_compute. reflexivity. Qed.

(** ** Dates *)

(** Days from 1970-01-01 to the proleptic Gregorian date [y-m-d]. *)
Definition days_from_civil (y m d : Z) : Z :=
  let y' := if m <=? 2 then y - 1 else y in
  let era := y' / 400 in
  let yoe := y' - era * 400 in
  let mp := (m + 9) mod 12 in
  let doy := (153 * mp + 2) / 5 + d - 1 in
  let doe := yoe * 365 + yoe / 4 - yoe / 100 + doy in
  era * 146097 + doe - 719468.

Definition is_leap (y : Z) : bool :=
  ((y mod 4 =? 0) && negb (y mod 100 =? 0)) || (y mod 400 =? 0).

Definition days_in_month (y m : Z) : Z :=
  if m =? 2 then (if is_leap y then 29 else 28)
  else if (m =? 4) || (m =? 6) || (m =? 9) || (m =? 11) then 30
  else 31.

Definition digit_val (c : Z) : option Z := if is_digit c then Some (c - 48) else None.

Fixpoint digits_val (l : jsstr) (acc : Z) : option Z :=
  match l with
  | [] => Some acc
  | c :: r => match digit_val c with
              | Some v => digits_val r (acc * 10 + v)
              | None => None
              end
  end.

(** The date part of the Date Time String Format (ECMAScript 21.4.1.32):
    YYYY, YYYY-MM or YYYY-MM-DD, the year possibly expanded (+YYYYYY,
    -YYYYYY); the rest of the text is returned. *)
Definition parse_date_part (s : jsstr) : option (Z * Z * Z * jsstr) :=
  let year :=
    match s with
    | 43 :: a :: b :: c :: d :: e :: f :: r =>
        match digits_val [a; b; c; d; e; f] 0 with
        | Some y => Some (y, r)
        | None => None
        end
    | 45 :: a :: b :: c :: d :: e :: f :: r =>
        match digits_val [a; b; c; d; e; f] 0 with
        | Some 0 => None
        | Some y => Some (- y, r)
        | None => None
        end
    | a :: b :: c :: d :: r =>
        match digits_val [a; b; c; d] 0 with
        | Some y => Some (y, r)
        | None => None
        end
    | _ => None
    end in
  match year with
  | None => None
  | Some (y, r) =>
      match r with
      | 45 :: m1 :: m2 :: r1 =>
          match digits_val [m1; m2] 0 with
          | None => None
          | Some m =>
              match r1 with
              | 45 :: d1 :: d2 :: r2 =>
                  match digits_val [d1; d2] 0 with
                  | Some d => Some (y, m, d, r2)
                  | None => None
                  end
              | _ => Some (y, m, 1, r1)
              end
          end
      | _ => Some (y, 1, 1, r)
      end
  end.

(** [new Date(text)] for a text [date "T" HH:mm:ss] without offset,
    which is local time: the local milliseconds since 1970-01-01T00:00
    (local), or [None] for an invalid date (NaN).  Texts outside the Date
    Time String Format go to an implementation-defined fallback parser,
    which is not modelled: they are an invalid date here. *)
Definition parse_local_datetime (s : jsstr) : option Z :=
  match parse_date_part s with
  | Some (y, m, d, [84; h1; h2; 58; i1; i2; 58; s1; s2]) =>
      match digits_val [h1; h2] 0, digits_val [i1; i2] 0, digits_val [s1; s2] 0 with
      | Some h, Some mi, Some sec =>
          if (1 <=? m) && (m <=? 12) && (1 <=? d) && (d <=? days_in_month y m)
             && ((h <? 24) || ((h =? 24) && (mi =? 0) && (sec =? 0)))
             && (mi <? 60) && (sec <? 60)
          then Some (days_from_civil y m d * 86400000 + h * 3600000 + mi * 60000 + sec * 1000)
          else None
      | _, _, _ => None
      end
  | _ => None
  end.

Example parse_local_sample :
  parse_local_datetime (js "2027-08-31T23:59:59") = Some 1819756799000.
Proof. vm_compute. reflexivity. Qed.

(** ** The verification handler *)

Record verify_result := mk_result {
  ok : bool;
  reason : option string;
  data : option batch_record
}.

Definition res_invalid_token : verify_result :=
  mk_result false (Some "Invalid or corrupted QR payload."%string) None.
Definition res_no_match : verify_result :=
  mk_result false (Some "No matching batch on ledger (possible counterfeit)."%string) None.
Definition res_recalled (m : batch_record) : verify_result :=
  mk_result false (Some "Batch is recalled by manufacturer."%string) (Some m).
Definition res_expired (m : batch_record) : verify_result :=
  mk_result false (Some "Medicine is expired."%string) (Some m).
Definition res_ok (m : batch_record) : verify_result :=
  mk_result true None (Some m).

(** The module-level [scanned] set (in insertion order) and the two React
    state cells the handler writes. *)
Record app_state := mk_state {
  scanned : list jsstr;
  duplicateFlag : bool;
  verifyResult : option verify_result
}.

(** The handler runs in a world that also has a system clock: the
    milliseconds since the epoch (UTC) that [new Date()] returns. *)
Record world := mk_world {
  ui : app_state;
  system_clock : Z
}.

Definition setDuplicateFlag (b : bool) (st : app_state) : app_state :=
  mk_state (scanned st) b (verifyResult st).
Definition setVerifyResult (r : verify_result) (st : app_state) : app_state :=
  mk_state (scanned st) (duplicateFlag st) (Some r).
Definition scanned_has (k : jsstr) (st : app_state) : bool :=
  existsb (jsstr_eqb k) (scanned st).
Definition scanned_add (k : jsstr) (st : app_state) : app_state :=
  if scanned_has k st then st
  else mk_state (scanned st ++ [k]) (duplicateFlag st) (verifyResult st).

(** The duplicate key [`${id}-${b}-${c}`]. *)
Definition identity_key (i b c : jsstr) : jsstr := i ++ js "-" ++ b ++ js "-" ++ c.

Definition record_matches (decoded : json) (r : batch_record) : bool :=
  str_strict_eq (id r) (prop_get decoded (js "id"))
  && str_strict_eq (batch r) (prop_get decoded (js "b"))
  && str_strict_eq (checksum r) (prop_get decoded (js "c")).

Section Handler.

(** The local time zone, as a fixed offset: local time = UTC + offset. *)
Variable tz_offset_ms : Z.

(** [new Date(text)] for a local date-time text: milliseconds since the
    epoch (UTC), [None] for NaN (TimeClip included). *)
Definition new_date_local (text : jsstr) : option Z :=
  match parse_local_datetime text with
  | Some l => let t := l - tz_offset_ms in
              if Z.abs t <=? 8640000000000000 then Some t else None
  | None => None
  end.

(** [now > exp] on two Date objects: a comparison with NaN is false. *)
Definition date_gt (now : Z) (e : option Z) : bool :=
  match e with
  | Some t => t <? now
  | None => false
  end.

Variable ledger : list batch_record.

Definition handle_verify_state (now : Z) (token : jsstr) (st0 : app_state) : app_state :=
  let st := setDuplicateFlag false st0 in
  match decodeToken (js_trim token) with
  | None => setVerifyResult res_invalid_token st
  | Some decoded =>
      match find (record_matches decoded) ledger with
      | None => setVerifyResult res_no_match st
      | Some m =>
          let key := identity_key (js_to_string_opt (prop_get decoded (js "id")))
                                  (js_to_string_opt (prop_get decoded (js "b")))
                                  (js_to_string_opt (prop_get decoded (js "c"))) in
          let st := if scanned_has key st then setDuplicateFlag true st
                    else scanned_add key st in
          let e := new_date_local (exp m ++ js "T23:59:59") in
          let isExpired := date_gt now e in
          if jsstr_eqb (status m) (js "recalled") then setVerifyResult (res_recalled m) st
          else if isExpired then setVerifyResult (res_expired m) st
          else setVerifyResult (res_ok m) st
      end
  end.

(** [handleVerify(token)]: the caller passes the token only; [now] is
    read from the world's clock. *)
Definition handleVerify (token : jsstr) (w : world) : world :=
  mk_world (handle_verify_state (system_clock w) token (ui w)) (system_clock w).

(** A sequence of calls; between two calls the clock may have moved. *)
Fixpoint run (calls : list (Z * jsstr)) (w : world) : world :=
  match calls with
  | [] => w
  | (clock, token) :: r => run r (handleVerify token (mk_world (ui w) clock))
  end.

End Handler.

Definition initial_state : app_state := mk_state [] false None.

Definition token_of (row : batch_record) : jsstr :=
  match encodeToken row with Some t => t | None => [] end.

Definition med001 := nth 0 mockLedger (mk_record [] [] [] [] [] [] [] [] [] []).
Definition med004 := nth 3 mockLedger (mk_record [] [] [] [] [] [] [] [] [] []).

(** ** The ledger grid: search, status filter and tokens *)

(** [s.startsWith(p)] at index 0, as used by [includes] below. *)
Fixpoint starts_with (p s : jsstr) : bool :=
  match p, s with
  | [], _ => true
  | x :: p', y :: s' => (x =? y) && starts_with p' s'
  | _ :: _, [] => false
  end.

(** [s.includes(p)]: [p] occurs in [s] at some index (the empty string
    occurs everywhere). *)
Fixpoint js_includes (s p : jsstr) : bool :=
  starts_with p s || match s with [] => false | _ :: r => js_includes r p end.

(** A row of the grid: the record spread with its [token]. *)
Record ledger_row := mk_row {
  row_record : batch_record;
  token : jsstr
}.

Section LedgerView.

(** [String.prototype.toLowerCase], left abstract: the properties below
    hold whatever the case mapping is. *)
Variable to_lower : jsstr -> jsstr.

Definition matchesText (query : jsstr) (r : batch_record) : bool :=
  (List.length (js_trim query) =? 0)%nat
  || js_includes (to_lower (name r)) (to_lower query)
  || js_includes (to_lower (id r)) (to_lower query)
  || js_includes (to_lower (batch r)) (to_lower query).

Definition matchesFilter (filter : jsstr) (r : batch_record) : bool :=
  if jsstr_eqb filter (js "all") then true else jsstr_eqb (status r) filter.

(** The [useMemo] of [ledger]: [mockLedger.map] adds each record's token
    (an exception of [encodeToken] aborts the whole computation: [None]),
    then the rows are filtered by the search text and the status filter. *)
Definition ledger_view (records : list batch_record) (query filter : jsstr)
  : option (list ledger_row) :=
  match map_option (fun r => option_map (mk_row r) (encodeToken r)) records with
  | Some rows =>
      Some (List.filter (fun vr => matchesText query (row_record vr)
                                   && matchesFilter filter (row_record vr)) rows)
  | None => None
  end.

End LedgerView.

(** The [useEffect] on [ledger]: when the grid has rows and the verify
    box is empty, the box is filled with the first row's token. *)
Definition autofill (ledger : list ledger_row) (verifyInput : jsstr) : jsstr :=
  match ledger with
  | vr :: _ => match verifyInput with [] => token vr | _ => verifyInput end
  | [] => verifyInput
  end.

(** The result panel shows the duplicate-scan banner inside its success
    branch only: [verifyResult && (verifyResult.ok ? (... duplicateFlag && ...) : ...)]. *)
Definition duplicate_banner_shown (st : app_state) : bool :=
  match verifyResult st with
  | Some r => ok r && duplicateFlag st
  | None => false
  end.

(** [toLowerCase] on strings whose letters are ASCII. *)
Definition ascii_lower (s : jsstr) : jsstr :=
  map (fun c => if (65 <=? c) && (c <=? 90) then c + 32 else c) s.

(** The characters of the base64 alphabet, [=] excluded. *)
Definition is_b64_alphabet (c : Z) : bool :=
  match b64_value c with Some _ => true | None => false end.

(** Local wall-clock milliseconds of 2026-01-01T00:00:00. *)
Example handle_verify_twice :
  let w1 := handleVerify 0 mockLedger (token_of med001)
              (mk_world initial_state (1767225600000)) in
  let w2 := handleVerify 0 mockLedger (token_of med001) w1 in
  (verifyResult (ui w1), duplicateFlag (ui w1), verifyResult (ui w2), duplicateFlag (ui w2))
  = (Some (res_ok med001), false, Some (res_ok med001), true).
Proof. vm_compute. reflexivity. Qed.

(** * Properties *)

(** ** Unfolding the handler *)

Lemma str_strict_eq_spec : forall a b, str_strict_eq a b = true <-> b = Some (JStr a).
Proof.
  intros a [[| | | s | |]|]; simpl; try (split; congruence).
  rewrite jsstr_eqb_eq; split; congruence.
Qed.

(** The triple of the claim [d] is exactly the triple of [r]. *)
Definition triple_equal (d : json) (r : batch_record) : Prop :=
  prop_get d (js "id") = Some (JStr (id r)) /\
  prop_get d (js "b") = Some (JStr (batch r)) /\
  prop_get d (js "c") = Some (JStr (checksum r)).

Lemma record_matches_spec : forall d r, record_matches d r = true <-> triple_equal d r.
Proof.
  intros d r; unfold record_matches, triple_equal.
  rewrite !andb_true_iff, !str_strict_eq_spec; tauto.
Qed.

Lemma scanned_has_In : forall k st, scanned_has k st = true <-> In k (scanned st).
Proof.
  intros k st; unfold scanned_has; rewrite existsb_exists; split.
  - intros [x [Hx He]]; apply jsstr_eqb_eq in He; subst; exact Hx.
  - intros H; exists k; split; [exact H | apply jsstr_eqb_eq; reflexivity].
Qed.

Section Unfold.
Variables (tz : Z) (L : list batch_record) (now : Z) (token : jsstr) (st : app_state).

Lemma handle_decode_none :
  decodeToken (js_trim token) = None ->
  handle_verify_state tz L now token st = mk_state (scanned st) false (Some res_invalid_token).
Proof. intros H; unfold handle_verify_state; rewrite H; reflexivity. Qed.

Lemma handle_no_match : forall d,
  decodeToken (js_trim token) = Some d -> find (record_matches d) L = None ->
  handle_verify_state tz L now token st = mk_state (scanned st) false (Some res_no_match).
Proof. intros d Hd Hf; unfold handle_verify_state; rewrite Hd, Hf; reflexivity. Qed.

(** The verdict of the business rules for a matched record. *)
Definition verdict (m : batch_record) : verify_result :=
  if jsstr_eqb (status m) (js "recalled") then res_recalled m
  else if date_gt now (new_date_local tz (exp m ++ js "T23:59:59")) then res_expired m
  else res_ok m.

Lemma handle_match : forall d m,
  decodeToken (js_trim token) = Some d -> find (record_matches d) L = Some m ->
  let key := identity_key (id m) (batch m) (checksum m) in
  handle_verify_state tz L now token st =
  mk_state (if scanned_has key st then scanned st else scanned st ++ [key])
           (scanned_has key st) (Some (verdict m)).
Proof.
  intros d m Hd Hf key; unfold handle_verify_state; rewrite Hd, Hf.
  apply find_some in Hf; destruct Hf as [_ Hm].
  apply record_matches_spec in Hm; destruct Hm as (Hi & Hb & Hc).
  rewrite Hi, Hb, Hc; simpl js_to_string_opt; fold key.
  unfold verdict, scanned_add, scanned_has; simpl.
  destruct (existsb (jsstr_eqb key) (scanned st));
    destruct (jsstr_eqb (status m) (js "recalled"));
    destruct (date_gt now (new_date_local tz (exp m ++ js "T23:59:59"))); reflexivity.
Qed.

(** Every call ends in one of the three branches. *)
Lemma handle_cases :
  (decodeToken (js_trim token) = None /\
   handle_verify_state tz L now token st = mk_state (scanned st) false (Some res_invalid_token))
  \/ (exists d, decodeToken (js_trim token) = Some d /\ find (record_matches d) L = None /\
      handle_verify_state tz L now token st = mk_state (scanned st) false (Some res_no_match))
  \/ (exists d m, decodeToken (js_trim token) = Some d /\ find (record_matches d) L = Some m /\
      let key := identity_key (id m) (batch m) (checksum m) in
      handle_verify_state tz L now token st =
      mk_state (if scanned_has key st then scanned st else scanned st ++ [key])
               (scanned_has key st) (Some (verdict m))).
Proof.
  destruct (decodeToken (js_trim token)) as [d|] eqn:Hd.
  - destruct (find (record_matches d) L) as [m|] eqn:Hf.
    + right; right; exists d, m; split; [assumption || reflexivity | split; [assumption || reflexivity |]].
      apply (handle_match d m Hd Hf).
    + right; left; exists d; split; [assumption || reflexivity | split; [assumption || reflexivity |]].
      apply (handle_no_match d Hd Hf).
  - left; split; [reflexivity | apply handle_decode_none; exact Hd].
Qed.

End Unfold.

Lemma data_verdict : forall tz now m, data (verdict tz now m) = Some m.
Proof.
  intros tz now m; unfold verdict.
  destruct (jsstr_eqb _ _); [reflexivity|]; destruct (date_gt _ _); reflexivity.
Qed.

Lemma verdict_not_failure : forall tz now m,
  verdict tz now m <> res_invalid_token /\ verdict tz now m <> res_no_match.
Proof.
  intros tz now m; split; intros H; apply (f_equal data) in H;
    rewrite data_verdict in H; discriminate.
Qed.

Lemma find_none_of_no_triple : forall d L,
  (forall r, In r L -> ~ triple_equal d r) -> find (record_matches d) L = None.
Proof.
  intros d L H; destruct (find (record_matches d) L) as [m|] eqn:Hf; [|reflexivity].
  apply find_some in Hf; destruct Hf as [Hin Hm].
  apply record_matches_spec in Hm; exfalso; exact (H m Hin Hm).
Qed.

(** One call never removes a key from the seen-set. *)
Lemma handle_scanned_grows : forall tz L now token st,
  incl (scanned st) (scanned (handle_verify_state tz L now token st)).
Proof.
  intros tz L now token st.
  destruct (handle_cases tz L now token st) as [[_ ->] | [[d [_ [_ ->]]] | [d [m [_ [_ H]]]]]];
    simpl; try apply incl_refl.
  rewrite H; simpl; destruct (scanned_has _ _); [apply incl_refl | apply incl_appl, incl_refl].
Qed.

Lemma run_scanned_grows : forall tz L calls w,
  incl (scanned (ui w)) (scanned (ui (run tz L calls w))).
Proof.
  intros tz L calls; induction calls as [|[clock token] calls IH]; intros w; simpl.
  - apply incl_refl.
  - eapply incl_tran; [| apply IH].
    apply (handle_scanned_grows tz L clock token (ui w)).
Qed.

(** ** Concrete inputs *)

Definition empty_record := mk_record [] [] [] [] [] [] [] [] [] [].

(** A label that copies MED-001's id and batch but not the exact checksum:
    it differs from "f9a2" only in letter case. *)
Definition med001_forged := mk_record (js "MED-001") (js "Paracetamol 500mg (10 tabs)")
  (js "B456789") (js "2025-09-01") (js "2027-08-31") (js "XYZ Pharma Pvt Ltd")
  (js "Sunrise Distributors") (js "Sahil Medicals (Chembur)") (js "F9A2") (js "active").

(** Local wall-clock milliseconds of 2026-01-01T00:00:00 and of
    2030-01-01T00:00:00. *)
Definition t_2026_01_01 : Z := 1767225600000.
Definition t_2030_01_01 : Z := 1893456000000.

Definition world_at (clock : Z) : world := mk_world initial_state clock.

(** ** C1: exact, case-sensitive match on the whole triple *)

(** C1: for a decoded claim, a matched record (surfaced in the result) is
    a ledger record whose (id, batch, checksum) equals the claim's, code
    unit for code unit; when no ledger record agrees on all three fields,
    the call does exactly what it does on an empty ledger and reports
    NO_MATCH, whatever partial agreement there is. *)
Theorem C1_exact_triple_match : forall tz L token w d,
  decodeToken (js_trim token) = Some d ->
  (forall res m, verifyResult (ui (handleVerify tz L token w)) = Some res ->
     data res = Some m -> In m L /\ triple_equal d m) /\
  ((forall r, In r L -> ~ triple_equal d r) ->
   handleVerify tz L token w = handleVerify tz [] token w /\
   verifyResult (ui (handleVerify tz L token w)) = Some res_no_match).
Proof.
  intros tz L token w d Hd; split.
  - intros res m Hres Hdata; unfold handleVerify in Hres; simpl in Hres.
    destruct (handle_cases tz L (system_clock w) token (ui w))
      as [[Hn _] | [[d' [Hd' [_ H]]] | [d' [m' [Hd' [Hf H]]]]]].
    + congruence.
    + rewrite H in Hres; simpl in Hres; injection Hres as <-; discriminate.
    + rewrite Hd in Hd'; injection Hd' as <-.
      rewrite H in Hres; simpl in Hres; injection Hres as <-.
      rewrite data_verdict in Hdata; injection Hdata as <-.
      apply find_some in Hf; destruct Hf as [Hin Hm].
      apply record_matches_spec in Hm; split; assumption.
  - intros Hno; pose proof (find_none_of_no_triple d L Hno) as Hf.
    unfold handleVerify; rewrite (handle_no_match _ _ _ _ _ d Hd Hf).
    rewrite (handle_no_match _ [] _ _ _ d Hd eq_refl); split; reflexivity.
Qed.

Lemma C1_exact_triple_match_witness :
  decodeToken (js_trim (token_of med001_forged)) = Some (claim_of med001_forged) /\
  verifyResult (ui (handleVerify 0 mockLedger (token_of med001_forged) (world_at t_2026_01_01)))
  = Some res_no_match.
Proof.
  assert (Hd : decodeToken (js_trim (token_of med001_forged)) = Some (claim_of med001_forged))
    by (vm_compute; reflexivity).
  split; [exact Hd |].
  apply (C1_exact_triple_match 0 mockLedger (token_of med001_forged)
           (world_at t_2026_01_01) (claim_of med001_forged) Hd).
  intros r Hr; simpl in Hr.
  destruct Hr as [<- | [<- | [<- | [<- | []]]]]; unfold triple_equal;
    vm_compute; intros [_ [_ H]]; discriminate H.
Defined.

(** ** C5: recall before expiry *)

(** C5: whatever the clock reads, a matched record whose status is
    "recalled" gives the recalled result, so a recalled record past its
    expiry is never reported as expired. *)
Theorem C5_recall_precedence : forall tz L token w d m,
  decodeToken (js_trim token) = Some d ->
  find (record_matches d) L = Some m ->
  status m = js "recalled" ->
  verifyResult (ui (handleVerify tz L token w)) = Some (res_recalled m).
Proof.
  intros tz L token w d m Hd Hf Hs; unfold handleVerify; simpl.
  rewrite (handle_match _ _ _ _ _ d m Hd Hf); simpl.
  unfold verdict; rewrite Hs; reflexivity.
Qed.

(** MED-004 is recalled and, on 2030-01-01, also past its expiry date. *)
Lemma C5_recall_precedence_witness :
  date_gt t_2030_01_01 (new_date_local 0 (exp med004 ++ js "T23:59:59")) = true /\
  verifyResult (ui (handleVerify 0 mockLedger (token_of med004) (world_at t_2030_01_01)))
  = Some (res_recalled med004).
Proof.
  split; [vm_compute; reflexivity |].
  apply (C5_recall_precedence 0 mockLedger (token_of med004) (world_at t_2030_01_01)
           (claim_of med004) med004); vm_compute; reflexivity.
Defined.

(** ** C6 and C10: decode failures and ledger misses *)

Lemma failure_result_branch : forall tz L now token st,
  verifyResult (handle_verify_state tz L now token st) = Some res_invalid_token \/
  verifyResult (handle_verify_state tz L now token st) = Some res_no_match ->
  handle_verify_state tz L now token st = mk_state (scanned st) false (Some res_invalid_token) \/
  handle_verify_state tz L now token st = mk_state (scanned st) false (Some res_no_match).
Proof.
  intros tz L now token st Hres.
  destruct (handle_cases tz L now token st) as [[_ H] | [[d [_ [_ H]]] | [d [m [_ [_ H]]]]]];
    [left; exact H | right; exact H |].
  exfalso; rewrite H in Hres; simpl in Hres.
  destruct (verdict_not_failure tz now m) as [H1 H2].
  destruct Hres as [E | E]; injection E; assumption.
Qed.

(** C6: a call that ends in INVALID_TOKEN or NO_MATCH leaves the seen-set
    exactly as it was. *)
Theorem C6_failures_keep_seen_set : forall tz L token w,
  verifyResult (ui (handleVerify tz L token w)) = Some res_invalid_token \/
  verifyResult (ui (handleVerify tz L token w)) = Some res_no_match ->
  scanned (ui (handleVerify tz L token w)) = scanned (ui w).
Proof.
  intros tz L token w Hres; unfold handleVerify in *; simpl in *.
  destruct (failure_result_branch _ _ _ _ _ Hres) as [H | H]; rewrite H; reflexivity.
Qed.

(** A world whose seen-set already holds MED-001's key and whose duplicate
    flag is set, as after a second scan of MED-001. *)
Definition world_after_duplicate : world :=
  mk_world (mk_state [identity_key (js "MED-001") (js "B456789") (js "f9a2")] true
                     (Some (res_ok med001))) t_2026_01_01.

Lemma C6_failures_keep_seen_set_witness :
  verifyResult (ui (handleVerify 0 mockLedger (token_of med001_forged) world_after_duplicate))
  = Some res_no_match /\
  scanned (ui (handleVerify 0 mockLedger (token_of med001_forged) world_after_duplicate))
  = scanned (ui world_after_duplicate).
Proof.
  assert (H : verifyResult (ui (handleVerify 0 mockLedger (token_of med001_forged)
                                  world_after_duplicate)) = Some res_no_match)
    by (vm_compute; reflexivity).
  split; [exact H |].
  apply C6_failures_keep_seen_set; right; exact H.
Defined.

(** C10: the handler first clears the duplicate flag, so after a call that
    ends in INVALID_TOKEN or NO_MATCH the flag is false, even when the
    previous call had set it. *)
Theorem C10_flag_cleared_on_failure : forall tz L token w,
  verifyResult (ui (handleVerify tz L token w)) = Some res_invalid_token \/
  verifyResult (ui (handleVerify tz L token w)) = Some res_no_match ->
  duplicateFlag (ui (handleVerify tz L token w)) = false.
Proof.
  intros tz L token w Hres; unfold handleVerify in *; simpl in *.
  destruct (failure_result_branch _ _ _ _ _ Hres) as [H | H]; rewrite H; reflexivity.
Qed.

(** A token that is not base64 at all, after a call that set the flag. *)
Lemma C10_flag_cleared_on_failure_witness :
  duplicateFlag (ui world_after_duplicate) = true /\
  verifyResult (ui (handleVerify 0 mockLedger (js "not a token!") world_after_duplicate))
  = Some res_invalid_token /\
  duplicateFlag (ui (handleVerify 0 mockLedger (js "not a token!") world_after_duplicate))
  = false.
Proof.
  assert (H : verifyResult (ui (handleVerify 0 mockLedger (js "not a token!")
                                  world_after_duplicate)) = Some res_invalid_token)
    by (vm_compute; reflexivity).
  split; [reflexivity | split; [exact H |]].
  apply C10_flag_cleared_on_failure; left; exact H.
Defined.

(** ** C7: check-and-record of the duplicate key *)

(** C7: for a matched claim the key is built from the claim's id, b and c
    (which are the record's id, batch and checksum); a key already in the
    seen-set raises the duplicate flag and leaves the set alone, a new key
    is appended and the flag stays false; over any sequence of calls the
    seen-set only grows. *)
Theorem C7_check_and_record : forall tz L token w d m,
  decodeToken (js_trim token) = Some d ->
  find (record_matches d) L = Some m ->
  let key := identity_key (js_to_string_opt (prop_get d (js "id")))
                          (js_to_string_opt (prop_get d (js "b")))
                          (js_to_string_opt (prop_get d (js "c"))) in
  let st' := ui (handleVerify tz L token w) in
  key = identity_key (id m) (batch m) (checksum m) /\
  (In key (scanned (ui w)) -> duplicateFlag st' = true /\ scanned st' = scanned (ui w)) /\
  (~ In key (scanned (ui w)) ->
     duplicateFlag st' = false /\ scanned st' = scanned (ui w) ++ [key]) /\
  (forall calls w0, incl (scanned (ui w0)) (scanned (ui (run tz L calls w0)))).
Proof.
  intros tz L token w d m Hd Hf key st'.
  assert (Hkey : key = identity_key (id m) (batch m) (checksum m)).
  { pose proof (find_some _ _ Hf) as [_ Hm].
    apply record_matches_spec in Hm; destruct Hm as (Hi & Hb & Hc).
    unfold key; rewrite Hi, Hb, Hc; reflexivity. }
  assert (Hst : st' = mk_state (if scanned_has key (ui w) then scanned (ui w)
                                else scanned (ui w) ++ [key])
                               (scanned_has key (ui w)) (Some (verdict tz (system_clock w) m))).
  { unfold st', handleVerify; simpl; rewrite Hkey; apply (handle_match _ _ _ _ _ d m Hd Hf). }
  split; [exact Hkey | split; [| split]].
  - intros Hin; apply scanned_has_In in Hin; rewrite Hst, Hin; split; reflexivity.
  - intros Hnin; rewrite Hst; destruct (scanned_has key (ui w)) eqn:E.
    + apply scanned_has_In in E; contradiction.
    + split; reflexivity.
  - apply run_scanned_grows.
Qed.

Lemma C7_check_and_record_witness :
  scanned (ui (handleVerify 0 mockLedger (token_of med001) (world_at t_2026_01_01)))
  = [identity_key (js "MED-001") (js "B456789") (js "f9a2")].
Proof.
  destruct (C7_check_and_record 0 mockLedger (token_of med001) (world_at t_2026_01_01)
              (claim_of med001) med001) as [Hk [_ [Hnew _]]];
    [vm_compute; reflexivity | vm_compute; reflexivity |].
  rewrite (proj2 (Hnew (fun H => H))).
  rewrite Hk; reflexivity.
Defined.

(** ** C3: where the evaluation instant comes from *)

(** C3, as stated, fails: [handleVerify] receives the token only and reads
    [now] from the system clock, so two calls with the same token and the
    same seen-set and UI state give different outcomes when the clock
    differs (2026-01-01 against 2030-01-01, time zone UTC). *)
Lemma C3_now_read_from_clock :
  ui (world_at t_2026_01_01) = ui (world_at t_2030_01_01) /\
  verifyResult (ui (handleVerify 0 mockLedger (token_of med001) (world_at t_2026_01_01)))
  <> verifyResult (ui (handleVerify 0 mockLedger (token_of med001) (world_at t_2030_01_01))).
Proof.
  split; [reflexivity |].
  vm_compute; intros H; discriminate H.
Qed.

(** C3 (amended): the outcome of a call is a function of the token, the
    seen-set and the clock reading (and the fixed ledger and time zone):
    the duplicate flag and the result of the previous call play no part. *)
Theorem C3_deterministic_given_clock : forall tz L token w1 w2,
  scanned (ui w1) = scanned (ui w2) ->
  system_clock w1 = system_clock w2 ->
  handleVerify tz L token w1 = handleVerify tz L token w2.
Proof.
  intros tz L token [[s1 f1 r1] c1] [[s2 f2 r2] c2] Hs Hc; simpl in Hs, Hc; subst.
  unfold handleVerify; simpl; f_equal.
  unfold handle_verify_state; simpl.
  destruct (decodeToken (js_trim token)) as [d|]; [| reflexivity].
  destruct (find (record_matches d) L) as [m|]; [| reflexivity].
  unfold scanned_has, scanned_add, scanned_has; simpl.
  destruct (existsb _ s2); simpl;
    destruct (jsstr_eqb _ _); try reflexivity;
    destruct (date_gt _ _); reflexivity.
Qed.

Lemma C3_deterministic_given_clock_witness :
  handleVerify 0 mockLedger (token_of med001) world_after_duplicate =
  handleVerify 0 mockLedger (token_of med001)
    (mk_world (mk_state (scanned (ui world_after_duplicate)) false None) t_2026_01_01).
Proof. apply C3_deterministic_given_clock; reflexivity. Defined.

(** ** C9: the duplicate key *)

(** Two ledger records whose triples differ but whose keys coincide: the
    delimiter "-" also occurs inside the fields. *)
Definition rec_a := mk_record (js "MED-001") (js "Paracetamol") (js "B456789")
  (js "2025-09-01") (js "2027-08-31") (js "XYZ Pharma Pvt Ltd")
  (js "Sunrise Distributors") (js "Sahil Medicals (Chembur)") (js "f9a2") (js "active").
Definition rec_b := mk_record (js "MED") (js "Paracetamol") (js "001-B456789")
  (js "2025-09-01") (js "2027-08-31") (js "XYZ Pharma Pvt Ltd")
  (js "Sunrise Distributors") (js "Sahil Medicals (Chembur)") (js "f9a2") (js "active").

Definition claim_key (d : json) : jsstr :=
  identity_key (js_to_string_opt (prop_get d (js "id")))
               (js_to_string_opt (prop_get d (js "b")))
               (js_to_string_opt (prop_get d (js "c"))).

(** C9, as stated, fails: the claims of [rec_a] and [rec_b] have different
    triples and the same key; on a ledger holding both, a first scan of
    [rec_b] after one of [rec_a] is flagged as a duplicate. *)
Lemma C9_key_collision :
  (id rec_a, batch rec_a, checksum rec_a) <> (id rec_b, batch rec_b, checksum rec_b) /\
  claim_key (claim_of rec_a) = claim_key (claim_of rec_b) /\
  duplicateFlag (ui (run 0 [rec_a; rec_b]
                         [(t_2026_01_01, token_of rec_a); (t_2026_01_01, token_of rec_b)]
                         (world_at t_2026_01_01))) = true.
Proof.
  split; [vm_compute; intros H; discriminate H |].
  split; vm_compute; reflexivity.
Qed.

Lemma split_at_first : forall (x : Z) a1 a2 r1 r2,
  ~ In x a1 -> ~ In x a2 -> a1 ++ x :: r1 = a2 ++ x :: r2 -> a1 = a2 /\ r1 = r2.
Proof.
  intros x; induction a1 as [|y a1 IH]; intros [|z a2] r1 r2 H1 H2 E; simpl in *.
  - injection E; auto.
  - injection E as <- _; exfalso; apply H2; left; reflexivity.
  - injection E as -> _; exfalso; apply H1; left; reflexivity.
  - injection E as <- E.
    destruct (IH a2 r1 r2 (fun H => H1 (or_intror H)) (fun H => H2 (or_intror H)) E)
      as [-> ->]; split; reflexivity.
Qed.

Lemma rev_identity_key : forall i b c,
  rev (identity_key i b c) = rev c ++ 45 :: (rev b ++ 45 :: rev i).
Proof.
  intros i b c; unfold identity_key; simpl.
  rewrite !rev_app_distr; simpl; rewrite !rev_app_distr; simpl.
  rewrite <- !app_assoc; reflexivity.
Qed.

(** C9 (amended): the key is id ++ "-" ++ batch ++ "-" ++ checksum with no
    escaping; it tells two triples apart whenever neither batch nor
    checksum contains "-" (the id may). *)
Theorem C9_key_injective_dash_free : forall i1 b1 c1 i2 b2 c2,
  ~ In 45 b1 -> ~ In 45 c1 -> ~ In 45 b2 -> ~ In 45 c2 ->
  identity_key i1 b1 c1 = identity_key i2 b2 c2 ->
  i1 = i2 /\ b1 = b2 /\ c1 = c2.
Proof.
  intros i1 b1 c1 i2 b2 c2 Hb1 Hc1 Hb2 Hc2 E.
  apply (f_equal (@rev Z)) in E; rewrite !rev_identity_key in E.
  rewrite in_rev in Hb1, Hc1, Hb2, Hc2.
  destruct (split_at_first 45 _ _ _ _ Hc1 Hc2 E) as [Ec E'].
  destruct (split_at_first 45 _ _ _ _ Hb1 Hb2 E') as [Eb Ei].
  apply (f_equal (@rev Z)) in Ec, Eb, Ei; rewrite !rev_involutive in Ec, Eb, Ei.
  auto.
Qed.

(** MED-001 and MED-002 of the ledger: dash-free batches and checksums,
    different keys. *)
Lemma C9_key_injective_dash_free_witness :
  identity_key (js "MED-001") (js "B456789") (js "f9a2") <>
  identity_key (js "MED-002") (js "B984321") (js "7c3d").
Proof.
  intros E.
  destruct (C9_key_injective_dash_free _ _ _ _ _ _
              ltac:(vm_compute; intuition discriminate) ltac:(vm_compute; intuition discriminate)
              ltac:(vm_compute; intuition discriminate) ltac:(vm_compute; intuition discriminate) E)
    as [H _].
  discriminate H.
Defined.

(** ** C2: what [decodeToken] checks *)

Lemma prop_get_non_object : forall v k, (forall ms, v <> JObj ms) -> prop_get v k = None.
Proof. intros [| | | | | ms] k H; try reflexivity; exfalso; exact (H ms eq_refl). Qed.

(** For a number, the truthiness left open in [js_truthy] does not matter. *)
Lemma decodeToken_number : forall token txt lexeme,
  atob token = Some txt -> json_parse txt = Some (JNum lexeme) -> decodeToken token = None.
Proof.
  intros token txt lexeme Ha Hp; unfold decodeToken; rewrite Ha, Hp; reflexivity.
Qed.

(** base64 of the JSON text {"t":"REDSTEEP-DEMO"}. *)
Definition token_marker_only : jsstr :=
  match btoa (jq "{'t':'REDSTEEP-DEMO'}") with Some t => t | None => [] end.

(** C2, as stated, fails: a token whose JSON carries the marker and no
    [id], [b] or [c] decodes to a non-null object, and verification then
    reports NO_MATCH, not INVALID_TOKEN. *)
Lemma C2_missing_fields_accepted :
  decodeToken token_marker_only = Some (JObj [(js "t", JStr marker)]) /\
  prop_get (JObj [(js "t", JStr marker)]) (js "id") = None /\
  prop_get (JObj [(js "t", JStr marker)]) (js "b") = None /\
  prop_get (JObj [(js "t", JStr marker)]) (js "c") = None /\
  verifyResult (ui (handleVerify 0 mockLedger token_marker_only (world_at t_2026_01_01)))
  = Some res_no_match.
Proof. vm_compute; repeat split. Qed.

(** C2 (amended): [decodeToken] returns a value exactly when [atob] and
    [JSON.parse] succeed and the parsed value is an object whose property
    [t] is the string "REDSTEEP-DEMO"; the value is then returned as it
    is, whatever its other properties. *)
Theorem C2_decode_checks_marker_only : forall token j,
  decodeToken token = Some j <->
  exists txt ms, atob token = Some txt /\ json_parse txt = Some j /\ j = JObj ms /\
                 prop_get j (js "t") = Some (JStr marker).
Proof.
  intros token j; unfold decodeToken; split.
  - destruct (atob token) as [txt|] eqn:Ha; [| discriminate].
    destruct (json_parse txt) as [v|] eqn:Hp; [| discriminate].
    destruct v as [| b | lexeme | s | es | ms]; simpl;
      try (destruct b; discriminate); try discriminate;
      [destruct s; discriminate |].
    destruct (assoc_last ms (js "t")) as [[| | | t | |]|] eqn:Ht; try discriminate.
    destruct (jsstr_eqb t marker) eqn:Et; [| discriminate].
    apply jsstr_eqb_eq in Et; subst t; intros E; injection E as <-.
    exists txt, ms; repeat split; try assumption; simpl; exact Ht.
  - intros [txt [ms [Ha [Hp [-> Ht]]]]]; rewrite Ha, Hp; simpl in *.
    rewrite Ht; replace (jsstr_eqb marker marker) with true; [reflexivity |].
    symmetry; apply jsstr_eqb_eq; reflexivity.
Qed.

Lemma C2_decode_checks_marker_only_witness :
  exists txt ms, atob token_marker_only = Some txt /\
    json_parse txt = Some (JObj [(js "t", JStr marker)]) /\
    JObj [(js "t", JStr marker)] = JObj ms /\
    prop_get (JObj [(js "t", JStr marker)]) (js "t") = Some (JStr marker).
Proof.
  apply C2_decode_checks_marker_only.
  vm_compute; reflexivity.
Defined.

(** ** C4: the expiry boundary *)

(** Local wall-clock milliseconds of 2027-08-31T23:59:59.000,
    2027-08-31T23:59:59.500 and 2027-09-01T00:00:00.000. *)
Definition t_2027_08_31_235959 : Z := 1819756799000.
Definition t_2027_08_31_235959_500 : Z := 1819756799500.
Definition t_2027_09_01_000000 : Z := 1819756800000.

(** Under a fixed UTC offset of at most a day, the clock reading (UTC) of
    the local instant [l] is [l - tz]. *)
Lemma verdict_med001 : forall tz l,
  -86400000 <= tz <= 86400000 ->
  verdict tz (l - tz) med001 =
  if t_2027_08_31_235959 <? l then res_expired med001 else res_ok med001.
Proof.
  intros tz l Htz; unfold verdict.
  replace (jsstr_eqb (status med001) (js "recalled")) with false by (vm_compute; reflexivity).
  unfold new_date_local.
  replace (parse_local_datetime (exp med001 ++ js "T23:59:59"))
    with (Some t_2027_08_31_235959) by (vm_compute; reflexivity).
  unfold t_2027_08_31_235959.
  replace (Z.abs (1819756799000 - tz) <=? 8640000000000000) with true
    by (symmetry; apply Z.leb_le; lia).
  unfold date_gt.
  destruct (Z.ltb_spec (1819756799000 - tz) (l - tz));
    destruct (Z.ltb_spec 1819756799000 l); try reflexivity; lia.
Qed.

(** C4 (code_bug): at the two instants of the claim the code agrees with
    it, but within the last second of the expiry day (here at
    23:59:59.500) it already reports MED-001 as expired. *)
Theorem C4_expiry_within_last_second : forall tz,
  -86400000 <= tz <= 86400000 ->
  verifyResult (ui (handleVerify tz mockLedger (token_of med001)
                      (world_at (t_2027_08_31_235959 - tz)))) = Some (res_ok med001) /\
  verifyResult (ui (handleVerify tz mockLedger (token_of med001)
                      (world_at (t_2027_09_01_000000 - tz)))) = Some (res_expired med001) /\
  verifyResult (ui (handleVerify tz mockLedger (token_of med001)
                      (world_at (t_2027_08_31_235959_500 - tz)))) = Some (res_expired med001).
Proof.
  intros tz Htz.
  assert (Hd : decodeToken (js_trim (token_of med001)) = Some (claim_of med001))
    by (vm_compute; reflexivity).
  assert (Hf : find (record_matches (claim_of med001)) mockLedger = Some med001)
    by (vm_compute; reflexivity).
  unfold handleVerify, world_at; cbn [ui system_clock].
  rewrite !(handle_match _ _ _ _ _ _ _ Hd Hf); cbn [verifyResult].
  rewrite !verdict_med001 by exact Htz.
  split; [| split]; reflexivity.
Qed.

Lemma C4_expiry_within_last_second_witness :
  verifyResult (ui (handleVerify 0 mockLedger (token_of med001)
                      (world_at t_2027_08_31_235959_500))) = Some (res_expired med001).
Proof.
  replace t_2027_08_31_235959_500 with (t_2027_08_31_235959_500 - 0) by reflexivity.
  apply (C4_expiry_within_last_second 0); lia.
Defined.

(** ** Round trip of the codec *)

Definition latin1 (c : Z) : Prop := 0 <= c <= 255.

(** Names every [x / k] and [x mod k] of the goal, with the division
    equation and the bounds of the remainder, so that [lia] can use them. *)
Ltac name_divmod_of x k :=
  let q := fresh "q" in
  let r := fresh "r" in
  pose proof (Z.div_mod x k ltac:(lia)); pose proof (Z.mod_pos_bound x k ltac:(lia));
  set (q := x / k) in *; set (r := x mod k) in *.

Ltac name_divmod :=
  repeat match goal with
  | |- context [?x / ?k] => name_divmod_of x k
  | |- context [?x mod ?k] => name_divmod_of x k
  | H : context [?x / ?k] |- _ => name_divmod_of x k
  | H : context [?x mod ?k] |- _ => name_divmod_of x k
  end.

Lemma list_ind3 (P : list Z -> Prop) :
  P [] -> (forall a, P [a]) -> (forall a b, P [a; b]) ->
  (forall a b c r, P r -> P (a :: b :: c :: r)) -> forall l, P l.
Proof.
  intros H0 H1 H2 H3; fix F 1; intros [|a [|b [|c r]]];
    [exact H0 | apply H1 | apply H2 | apply H3, F].
Qed.

Lemma check_range : forall (P : Z -> bool) n,
  forallb P (map Z.of_nat (seq 0 n)) = true -> forall v, 0 <= v < Z.of_nat n -> P v = true.
Proof.
  intros P n H v Hv; rewrite forallb_forall in H; apply H.
  apply in_map_iff; exists (Z.to_nat v); split; [apply Z2Nat.id; lia |].
  apply in_seq; lia.
Qed.

(** The characters of the alphabet: their value, and none is [=] or
    whitespace. *)
Definition b64_char_ok (v : Z) : bool :=
  match b64_value (b64_char v) with
  | Some w => (w =? v) && negb (b64_char v =? 61) && negb (is_ascii_whitespace (b64_char v))
  | None => false
  end.

Lemma b64_char_props : forall v, 0 <= v < 64 ->
  b64_value (b64_char v) = Some v /\ b64_char v <> 61 /\ is_ascii_whitespace (b64_char v) = false.
Proof.
  intros v Hv.
  pose proof (check_range b64_char_ok 64 ltac:(vm_compute; reflexivity) v Hv) as H.
  unfold b64_char_ok in H; destruct (b64_value (b64_char v)) as [w|]; [| discriminate].
  apply andb_true_iff in H as [H Hws]; apply andb_true_iff in H as [Hw Heq].
  apply Z.eqb_eq in Hw; subst w; apply negb_true_iff in Hws, Heq.
  apply Z.eqb_neq in Heq; auto.
Qed.

Definition b64_alpha (c : Z) : Prop := exists v, 0 <= v < 64 /\ c = b64_char v.

Lemma map_option_app : forall {A B} (f : A -> option B) l1 l2 ys1 ys2,
  map_option f l1 = Some ys1 -> map_option f l2 = Some ys2 ->
  map_option f (l1 ++ l2) = Some (ys1 ++ ys2).
Proof.
  intros A B f l1; induction l1 as [|x l1 IH]; intros l2 ys1 ys2 H1 H2; simpl in *.
  - injection H1 as <-; exact H2.
  - destruct (f x) as [y|]; [| discriminate].
    destruct (map_option f l1) as [ys|] eqn:E; [| discriminate].
    injection H1 as <-; rewrite (IH l2 ys ys2 eq_refl H2); reflexivity.
Qed.

Lemma map_option_alpha : forall l vs,
  Forall2 (fun c v => 0 <= v < 64 /\ c = b64_char v) l vs -> map_option b64_value l = Some vs.
Proof.
  intros l vs H; induction H as [|c v l vs [Hv ->] _ IH]; simpl; [reflexivity |].
  rewrite (proj1 (b64_char_props v Hv)), IH; reflexivity.
Qed.

(** The six-bit values of [b64_core l], and their decoding. *)
Lemma b64_core_values : forall l, Forall latin1 l ->
  exists vs, Forall2 (fun c v => 0 <= v < 64 /\ c = b64_char v) (b64_core l) vs /\
             b64_decode_values vs = Some l.
Proof.
  induction l as [| a | a b | a b c r IH] using list_ind3; intros Hl.
  - exists []; split; [constructor | reflexivity].
  - inversion Hl as [| ? ? Ha _]; unfold latin1 in Ha.
    exists [a / 4; (a mod 4) * 16]; split.
    + simpl; repeat (apply Forall2_cons; [split; [name_divmod; lia | reflexivity] |]); apply Forall2_nil.
    + simpl; f_equal; f_equal; name_divmod; lia.
  - inversion Hl as [| ? ? Ha Hl']; inversion Hl' as [| ? ? Hb _]; unfold latin1 in Ha, Hb.
    exists [a / 4; (a mod 4) * 16 + b / 16; (b mod 16) * 4]; split.
    + simpl; repeat (apply Forall2_cons; [split; [name_divmod; lia | reflexivity] |]); apply Forall2_nil.
    + simpl; f_equal; f_equal; [| f_equal]; name_divmod; lia.
  - inversion Hl as [| ? ? Ha Hl1]; inversion Hl1 as [| ? ? Hb Hl2];
      inversion Hl2 as [| ? ? Hc Hr]; unfold latin1 in Ha, Hb, Hc.
    destruct (IH Hr) as [vs [Hvs Hdec]].
    exists ([a / 4; (a mod 4) * 16 + b / 16; (b mod 16) * 4 + c / 64; c mod 64] ++ vs); split.
    + simpl; unfold b64_group3; simpl.
      repeat (apply Forall2_cons; [split; [name_divmod; lia | reflexivity] |]); exact Hvs.
    + simpl; rewrite Hdec; simpl; f_equal; f_equal; [| f_equal; [| f_equal]]; name_divmod; lia.
Qed.

Lemma b64_padding_step : forall n, b64_padding (S (S (S n))) = b64_padding n.
Proof.
  intros n; unfold b64_padding.
  replace (S (S (S n))) with (n + 1 * 3)%nat by lia.
  rewrite Nat.Div0.mod_add; reflexivity.
Qed.

Lemma b64_core_length : forall l, exists q,
  (List.length (b64_core l) = 4 * q /\ b64_padding (List.length l) = [])%nat \/
  (List.length (b64_core l) = 4 * q + 2 /\ b64_padding (List.length l) = [61; 61]%Z)%nat \/
  (List.length (b64_core l) = 4 * q + 3 /\ b64_padding (List.length l) = [61]%Z)%nat.
Proof.
  induction l as [| a | a b | a b c r IH] using list_ind3.
  - exists 0%nat; left; split; reflexivity.
  - exists 0%nat; right; left; split; reflexivity.
  - exists 0%nat; right; right; split; reflexivity.
  - destruct IH as [q H]; exists (S q).
    simpl List.length; rewrite b64_padding_step; simpl b64_core.
    unfold b64_group3; simpl List.length.
    destruct H as [[H1 H2] | [[H1 H2] | [H1 H2]]]; rewrite H1, H2;
      [left | right; left | right; right]; split; reflexivity || lia.
Qed.

Lemma mod4_shift : forall q e, ((4 * q + e) mod 4 = e mod 4)%nat.
Proof.
  intros q e; rewrite Nat.add_comm, Nat.mul_comm; apply Nat.Div0.mod_add.
Qed.

Lemma filter_keep_all : forall (f : Z -> bool) l, Forall (fun c => f c = true) l -> filter f l = l.
Proof.
  intros f l H; induction H as [| c l Hc _ IH]; simpl; [reflexivity |].
  rewrite Hc, IH; reflexivity.
Qed.

Lemma strip_padding_core : forall core pad,
  Forall (fun c => c <> 61) core ->
  ((List.length (core ++ pad)) mod 4 = 0)%nat ->
  pad = [] \/ pad = [61] \/ pad = [61; 61] ->
  strip_padding (core ++ pad) = core.
Proof.
  intros core pad Hc Hlen Hpad; unfold strip_padding; rewrite Hlen; simpl.
  rewrite Forall_forall in Hc.
  assert (Hr : forall y, In y (rev core) -> (y =? 61) = false)
    by (intros y Hy; apply Z.eqb_neq, Hc, in_rev, Hy).
  rewrite rev_app_distr.
  destruct Hpad as [-> | [-> | ->]]; simpl.
  - rewrite app_nil_r.
    destruct (rev core) as [| x [| y r]] eqn:Er; simpl.
    + reflexivity.
    + rewrite (Hr x (or_introl eq_refl)); reflexivity.
    + rewrite (Hr x (or_introl eq_refl)); reflexivity.
  - destruct (rev core) as [| y r] eqn:Er; simpl.
    + apply (f_equal (@rev Z)) in Er; rewrite rev_involutive in Er; symmetry; exact Er.
    + rewrite (Hr y (or_introl eq_refl)); simpl.
      change (rev r ++ [y]) with (rev (y :: r)).
      rewrite <- Er, rev_involutive; reflexivity.
  - rewrite rev_involutive; reflexivity.
Qed.

Lemma mod4_mul : forall q, ((4 * q) mod 4 = 0)%nat.
Proof. intros q; rewrite Nat.mul_comm; apply Nat.Div0.mod_mul. Qed.

(** [atob] undoes [btoa] on byte strings. *)
Lemma atob_b64 : forall l, Forall latin1 l ->
  atob (b64_core l ++ b64_padding (List.length l)) = Some l.
Proof.
  intros l Hl; destruct (b64_core_values l Hl) as [vs [Hvs Hdec]].
  assert (Hchars : Forall (fun c => c <> 61 /\ is_ascii_whitespace c = false) (b64_core l)).
  { clear Hdec; induction Hvs as [| c v l' vs' [Hv ->] _ IH]; constructor; [| exact IH].
    apply (b64_char_props v Hv). }
  assert (Hno61 : Forall (fun c => c <> 61) (b64_core l))
    by (eapply Forall_impl; [| exact Hchars]; intros c [H _]; exact H).
  unfold atob; rewrite filter_app, filter_keep_all
    by (eapply Forall_impl; [| exact Hchars]; intros c [_ Hw]; rewrite Hw; reflexivity).
  destruct (b64_core_length l) as [q [[Hlen Hp] | [[Hlen Hp] | [Hlen Hp]]]];
    rewrite Hp; simpl filter.
  - rewrite strip_padding_core; [| exact Hno61 | | tauto].
    + rewrite Hlen, mod4_mul; simpl.
      rewrite (map_option_alpha _ _ Hvs); exact Hdec.
    + rewrite length_app, Hlen; simpl List.length; rewrite Nat.add_0_r; apply mod4_mul.
  - rewrite strip_padding_core; [| exact Hno61 | | tauto].
    + rewrite Hlen, mod4_shift; simpl.
      rewrite (map_option_alpha _ _ Hvs); exact Hdec.
    + rewrite length_app, Hlen; simpl List.length.
      replace (4 * q + 2 + 2)%nat with (4 * S q)%nat by lia; apply mod4_mul.
  - rewrite strip_padding_core; [| exact Hno61 | | tauto].
    + rewrite Hlen, mod4_shift; simpl.
      rewrite (map_option_alpha _ _ Hvs); exact Hdec.
    + rewrite length_app, Hlen; simpl List.length.
      replace (4 * q + 3 + 1)%nat with (4 * S q)%nat by lia; apply mod4_mul.
Qed.

Lemma not_surrogate_latin1 : forall c, latin1 c ->
  is_leading_surrogate c = false /\ is_trailing_surrogate c = false.
Proof.
  intros c Hc; unfold latin1 in Hc; unfold is_leading_surrogate, is_trailing_surrogate.
  split; apply andb_false_iff; left; apply Z.leb_gt; lia.
Qed.

Lemma quote_units_latin1 : forall s, Forall latin1 s ->
  quote_units s = flat_map quote_unit s.
Proof.
  intros s H; induction H as [| c s Hc _ IH]; simpl; [reflexivity |].
  destruct (not_surrogate_latin1 c Hc) as [-> ->]; rewrite IH; reflexivity.
Qed.

(** [JSON.parse] reads back each escaped code unit. *)
Lemma parse_quote_unit : forall c X, latin1 c ->
  parse_string (quote_unit c ++ X) = cons_fst c (parse_string X).
Proof.
  intros c X Hc; unfold latin1 in Hc; unfold quote_unit.
  destruct (Z.eqb_spec c 8) as [-> | H8]; [reflexivity |].
  destruct (Z.eqb_spec c 9) as [-> | H9]; [reflexivity |].
  destruct (Z.eqb_spec c 10) as [-> | H10]; [reflexivity |].
  destruct (Z.eqb_spec c 12) as [-> | H12]; [reflexivity |].
  destruct (Z.eqb_spec c 13) as [-> | H13]; [reflexivity |].
  destruct (Z.eqb_spec c 34) as [-> | H34]; [reflexivity |].
  destruct (Z.eqb_spec c 92) as [-> | H92]; [reflexivity |].
  destruct (Z.ltb_spec c 32) as [Hlt | Hge].
  - assert (Hcases : In c (map Z.of_nat (seq 0 32))).
    { apply in_map_iff; exists (Z.to_nat c); split; [apply Z2Nat.id; lia | apply in_seq; lia]. }
    simpl in Hcases.
    repeat (destruct Hcases as [<- | Hcases]; [solve [reflexivity | congruence] |]).
    destruct Hcases.
  - simpl.
    destruct (Z.eqb_spec c 34); [contradiction |].
    destruct (Z.eqb_spec c 92); [contradiction |].
    destruct (Z.ltb_spec c 32); [lia | reflexivity].
Qed.

Lemma parse_quoted : forall s r, Forall latin1 s ->
  parse_string (quote_units s ++ 34 :: r) = Some (s, r).
Proof.
  intros s r H; rewrite quote_units_latin1 by exact H.
  induction H as [| c s Hc _ IH]; simpl; [reflexivity |].
  rewrite <- app_assoc, parse_quote_unit by exact Hc; rewrite IH; reflexivity.
Qed.

Lemma quote_unit_latin1 : forall c, latin1 c -> Forall latin1 (quote_unit c).
Proof.
  intros c Hc; unfold latin1 in *; unfold quote_unit.
  repeat match goal with
         | |- context [if ?b then _ else _] => destruct b eqn:?
         end;
    unfold unicode_escape, hex_digit;
    repeat (apply Forall_cons; [unfold latin1 | ]); try apply Forall_nil;
    repeat match goal with
           | |- context [if ?b then _ else _] => destruct b eqn:?
           end;
    rewrite ?Z.eqb_eq, ?Z.ltb_lt, ?Z.ltb_ge in *; try (name_divmod; lia); lia.
Qed.

Lemma quote_units_latin1_out : forall s, Forall latin1 s -> Forall latin1 (quote_units s).
Proof.
  intros s H; rewrite quote_units_latin1 by exact H.
  induction H as [| c s Hc _ IH]; simpl; [constructor |].
  apply Forall_app; split; [apply quote_unit_latin1; exact Hc | exact IH].
Qed.

(** The text [JSON.stringify] writes for the payload object. *)
Lemma stringify_payload : forall row,
  json_stringify_strings (payload row) =
  123 :: 34 :: 116 :: 34 :: 58 :: 34 :: (quote_units marker ++
  34 :: 44 :: 34 :: 105 :: 100 :: 34 :: 58 :: 34 :: (quote_units (id row) ++
  34 :: 44 :: 34 :: 98 :: 34 :: 58 :: 34 :: (quote_units (batch row) ++
  34 :: 44 :: 34 :: 99 :: 34 :: 58 :: 34 :: (quote_units (checksum row) ++ [34; 125])))).
Proof.
  intros row; unfold json_stringify_strings, payload; simpl stringify_members.
  unfold quote_json_string.
  generalize (quote_units (id row)) (quote_units (batch row)) (quote_units (checksum row)).
  intros qi qb qc; do 4 (simpl; rewrite <- ?app_assoc); reflexivity.
Qed.

(** [parse_value] reads back the JSON text of the payload. *)
Lemma parse_payload_fuel : forall row f,
  Forall latin1 (id row) -> Forall latin1 (batch row) -> Forall latin1 (checksum row) ->
  parse_value (S (S (S (S (S (S f)))))) (json_stringify_strings (payload row))
  = Some (claim_of row, []).
Proof.
  intros row f Hi Hb Hc; rewrite stringify_payload.
  simpl parse_value.
  rewrite parse_quoted by exact Hi; simpl.
  rewrite parse_quoted by exact Hb; simpl.
  rewrite parse_quoted by exact Hc; simpl.
  reflexivity.
Qed.

(** [btoa] does not throw on a string of Latin-1 code units. *)
Lemma btoa_latin1 : forall s, Forall latin1 s ->
  btoa s = Some (b64_core s ++ b64_padding (List.length s)).
Proof. 
  intros s H; unfold btoa.
  replace (forallb _ s) with true; [reflexivity |].
  symmetry; apply forallb_forall; intros c Hc.
  rewrite Forall_forall in H; specialize (H c Hc); unfold latin1 in H.
  apply andb_true_iff; split; apply Z.leb_le; lia.
Qed.

(** [JSON.parse] of a text without leading white space that [parse_value]
    consumes entirely, whatever the fuel beyond six. *)
Lemma json_parse_intro : forall txt v,
  skip_ws txt = txt ->
  (exists n, S (List.length txt) = S (S (S (S (S (S n)))))) ->
  (forall n, parse_value (S (S (S (S (S (S n)))))) txt = Some (v, [])) ->
  json_parse txt = Some v.
Proof.
  intros txt v Hs [n Hn] Hp; unfold json_parse.
  rewrite Hs, Hn, Hp; reflexivity.
Qed.

(** [JSON.parse] inverts [JSON.stringify] on the payload object. *)
Lemma json_parse_payload : forall row,
  Forall latin1 (id row) -> Forall latin1 (batch row) -> Forall latin1 (checksum row) ->
  json_parse (json_stringify_strings (payload row)) = Some (claim_of row).
Proof.
  intros row Hi Hb Hc.
  apply json_parse_intro.
  - rewrite stringify_payload; reflexivity.
  - rewrite stringify_payload; simpl List.length; eexists; reflexivity.
  - intros n; apply parse_payload_fuel; assumption.
Qed.

(** The JSON text of a Latin-1 payload is Latin-1, so [btoa] accepts it. *)
Lemma stringify_payload_latin1 : forall row,
  Forall latin1 (id row) -> Forall latin1 (batch row) -> Forall latin1 (checksum row) ->
  Forall latin1 (json_stringify_strings (payload row)).
Proof.
  intros row Hi Hb Hc; rewrite stringify_payload.
  apply quote_units_latin1_out in Hi, Hb, Hc.
  assert (Hm : Forall latin1 (quote_units marker)) by (vm_compute; repeat constructor; discriminate).
  revert Hm Hi Hb Hc.
  generalize (quote_units marker) (quote_units (id row)) (quote_units (batch row))
    (quote_units (checksum row)).
  intros qm qi qb qc Hm Hi Hb Hc.
  repeat ((apply Forall_app; split; [assumption |]) || (apply Forall_cons; [unfold latin1; lia |])).
  apply Forall_nil.
Qed.

(** [JSON.stringify] copies a code unit above 0xFF outside the surrogate
    range to its output. *)
Lemma quote_units_keeps_wide : forall n s c, (List.length s <= n)%nat ->
  In c s -> 255 < c -> ~ (55296 <= c <= 57343) -> In c (quote_units s).
Proof.
  induction n as [|n IH]; intros s c Hn Hin Hc Hs;
    [destruct s; [destruct Hin | simpl in Hn; lia] |].
  destruct s as [|x r]; [destruct Hin |]; simpl in Hn.
  assert (Hx : x = c -> is_leading_surrogate x = false /\ is_trailing_surrogate x = false).
  { intros ->; unfold is_leading_surrogate, is_trailing_surrogate.
    split; apply andb_false_iff;
      (destruct (Z.leb_spec 55296 c); [right; apply Z.leb_gt; lia | left; apply Z.leb_gt; lia])
      || (destruct (Z.leb_spec 56320 c); [right; apply Z.leb_gt; lia | left; apply Z.leb_gt; lia]). }
  cbn [quote_units].
  destruct (is_leading_surrogate x) eqn:Ex1.
  - destruct Hin as [<- | Hin]; [destruct (Hx eq_refl); congruence |].
    destruct r as [| d r']; [destruct Hin |].
    destruct (is_trailing_surrogate d) eqn:Ed.
    + destruct Hin as [<- | Hin].
      * exfalso; unfold is_trailing_surrogate in Ed; apply andb_true_iff in Ed as [E1 E2].
        apply Z.leb_le in E1, E2; lia.
      * right; right; apply (IH r'); simpl in Hn; [lia | assumption ..].
    + apply in_or_app; right; apply (IH (d :: r')); [lia | assumption ..].
  - destruct (is_trailing_surrogate x) eqn:Ex2.
    + destruct Hin as [<- | Hin]; [destruct (Hx eq_refl); congruence |].
      apply in_or_app; right; apply (IH r); [lia | assumption ..].
    + apply in_or_app; destruct Hin as [<- | Hin]; [left | right; apply (IH r); [lia | assumption ..]].
      unfold quote_unit.
      replace (x =? 8) with false by (symmetry; apply Z.eqb_neq; lia).
      replace (x =? 9) with false by (symmetry; apply Z.eqb_neq; lia).
      replace (x =? 10) with false by (symmetry; apply Z.eqb_neq; lia).
      replace (x =? 12) with false by (symmetry; apply Z.eqb_neq; lia).
      replace (x =? 13) with false by (symmetry; apply Z.eqb_neq; lia).
      replace (x =? 34) with false by (symmetry; apply Z.eqb_neq; lia).
      replace (x =? 92) with false by (symmetry; apply Z.eqb_neq; lia).
      replace (x <? 32) with false by (symmetry; apply Z.ltb_ge; lia).
      left; reflexivity.
Qed.

(** [btoa] throws on a text with a code unit above 0xFF. *)
Lemma btoa_wide : forall s c, In c s -> 255 < c -> btoa s = None.
Proof.
  intros s c Hin Hc; unfold btoa.
  destruct (forallb _ s) eqn:E; [| reflexivity].
  rewrite forallb_forall in E; specialize (E c Hin).
  apply andb_true_iff in E as [_ E]; apply Z.leb_le in E; lia.
Qed.

(** Such a code unit in id, batch or checksum makes [encodeToken] throw. *)
Lemma encodeToken_wide : forall row c,
  In c (id row) \/ In c (batch row) \/ In c (checksum row) ->
  255 < c -> ~ (55296 <= c <= 57343) -> encodeToken row = None.
Proof.
  intros row c Hin Hc Hs; unfold encodeToken.
  apply (btoa_wide _ c); [| exact Hc].
  rewrite stringify_payload.
  assert (K : forall s, In c s -> In c (quote_units s))
    by (intros s H; apply (quote_units_keeps_wide (List.length s)); auto).
  do 6 apply in_cons; apply in_or_app; right; do 8 apply in_cons.
  destruct Hin as [H | [H | H]]; apply K in H; apply in_or_app; [left; exact H | right ..].
  - do 7 apply in_cons; apply in_or_app; left; exact H.
  - do 7 apply in_cons; apply in_or_app; right; do 7 apply in_cons; apply in_or_app; left; exact H.
Qed.

(** A record whose id starts with the rupee sign U+20B9 (code unit 8377). *)
Definition rec_rupee := mk_record (8377 :: js "-001") (js "Paracetamol 500mg (10 tabs)")
  (js "B456789") (js "2025-09-01") (js "2027-08-31") (js "XYZ Pharma Pvt Ltd")
  (js "Sunrise Distributors") (js "Sahil Medicals (Chembur)") (js "f9a2") (js "active").

(** A record whose id starts with a lone leading surrogate U+D800. *)
Definition rec_lone_surrogate := mk_record (55296 :: js "-001") (js "Paracetamol 500mg (10 tabs)")
  (js "B456789") (js "2025-09-01") (js "2027-08-31") (js "XYZ Pharma Pvt Ltd")
  (js "Sunrise Distributors") (js "Sahil Medicals (Chembur)") (js "f9a2") (js "active").

(** C8 (amended): (1) for every record whose [id], [batch] and [checksum]
    consist of code units at most 0xFF, [encodeToken] yields a token (btoa
    does not throw) and [decodeToken] of that token returns exactly the
    object [{t: "REDSTEEP-DEMO", id: r.id, b: r.batch, c: r.checksum}];
    (2) when one of these fields holds a code unit above 0xFF outside the
    surrogate range 0xD800-0xDFFF, [btoa] throws and [encodeToken] yields
    no token; (3) a lone surrogate, which [JSON.stringify] writes as a
    six-character escape, does not make [btoa] throw, and the round trip
    holds for it. *)
Theorem C8_roundtrip_latin1 :
  (forall row,
     Forall latin1 (id row) -> Forall latin1 (batch row) -> Forall latin1 (checksum row) ->
     exists tok, encodeToken row = Some tok /\ decodeToken tok = Some (claim_of row)) /\
  (forall row c,
     In c (id row) \/ In c (batch row) \/ In c (checksum row) ->
     255 < c -> ~ (55296 <= c <= 57343) -> encodeToken row = None) /\
  (exists tok, encodeToken rec_lone_surrogate = Some tok /\
               decodeToken tok = Some (claim_of rec_lone_surrogate)).
Proof.
  split; [| split].
  - intros row Hi Hb Hc.
    pose proof (stringify_payload_latin1 row Hi Hb Hc) as Hl.
    eexists; split; [unfold encodeToken; rewrite btoa_latin1 by exact Hl; reflexivity |].
    unfold decodeToken; rewrite atob_b64 by exact Hl.
    rewrite json_parse_payload by assumption.
    unfold claim_of; simpl.
    replace (jsstr_eqb marker marker) with true by (symmetry; apply jsstr_eqb_eq; reflexivity).
    reflexivity.
  - exact encodeToken_wide.
  - exists (token_of rec_lone_surrogate); split; vm_compute; reflexivity.
Qed.

Lemma C8_roundtrip_latin1_witness :
  (exists tok, encodeToken med001 = Some tok /\ decodeToken tok = Some (claim_of med001)) /\
  encodeToken rec_rupee = None.
Proof.
  split.
  - apply (proj1 C8_roundtrip_latin1); apply Forall_forall; intros c Hc; vm_compute in Hc;
      unfold latin1; repeat (destruct Hc as [<- | Hc]; [lia |]); destruct Hc.
  - apply (proj1 (proj2 C8_roundtrip_latin1) rec_rupee 8377); [left; left; reflexivity | lia | lia].
Defined.

(** C8 (counterexample): for a record with a character above U+00FF in its
    id, [btoa] throws, so [encodeToken] yields no token and there is no
    round trip. *)
Lemma C8_non_latin1_no_token :
  encodeToken rec_rupee = None /\
  ~ exists tok, encodeToken rec_rupee = Some tok /\ decodeToken tok = Some (claim_of rec_rupee).
Proof.
  assert (H : encodeToken rec_rupee = None) by (vm_compute; reflexivity).
  split; [exact H |]; intros [tok [Htok _]]; congruence.
Qed.


(** * The rest of the component: codec edges, whitespace, the seen-set
    over many calls, the ledger grid and the autofill *)

(** The three fields the token carries are Latin-1 strings. *)
Definition fields_latin1 (r : batch_record) : Prop :=
  Forall latin1 (id r) /\ Forall latin1 (batch r) /\ Forall latin1 (checksum r).

(** ** Helpers: lists, base64 text, trimming *)

Lemma filter_idem : forall {A} (f : A -> bool) l, filter f (filter f l) = filter f l.
Proof.
  intros A f l; induction l as [|x l IH]; simpl; [reflexivity |].
  destruct (f x) eqn:E; simpl; [rewrite E, IH | rewrite IH]; reflexivity.
Qed.

Lemma filter_rev : forall {A} (f : A -> bool) l, filter f (rev l) = rev (filter f l).
Proof.
  intros A f l; induction l as [|x l IH]; simpl; [reflexivity |].
  rewrite filter_app, IH; simpl; destruct (f x); simpl; [reflexivity | apply app_nil_r].
Qed.

Lemma filter_all_true : forall {A} (f : A -> bool) l, (forall x, In x l -> f x = true) -> filter f l = l.
Proof.
  intros A f l H; induction l as [|x l IH]; simpl; [reflexivity |].
  rewrite (H x (or_introl eq_refl)), IH; [reflexivity |].
  intros y Hy; apply H; right; exact Hy.
Qed.

Lemma map_option_none : forall {A B} (f : A -> option B) l x,
  In x l -> f x = None -> map_option f l = None.
Proof.
  intros A B f l x; induction l as [|y l IH]; simpl; [tauto |].
  intros [<- | Hx] Hf; [rewrite Hf; reflexivity |].
  rewrite (IH Hx Hf); destruct (f y); reflexivity.
Qed.

Lemma map_option_some : forall {A B} (f : A -> option B) l,
  (forall x, In x l -> f x <> None) -> exists ys, map_option f l = Some ys.
Proof.
  intros A B f l; induction l as [|x l IH]; simpl; intros H; [exists []; reflexivity |].
  destruct (f x) as [y|] eqn:E; [| exfalso; exact (H x (or_introl eq_refl) E)].
  destruct IH as [ys ->]; [intros z Hz; apply H; right; exact Hz |].
  exists (y :: ys); reflexivity.
Qed.

Lemma map_option_in : forall {A B} (f : A -> option B) l ys x,
  map_option f l = Some ys -> In x l -> exists y, f x = Some y /\ In y ys.
Proof.
  intros A B f l; induction l as [|z l IH]; simpl; intros ys x Hm Hx; [tauto |].
  destruct (f z) as [y|] eqn:Ez; [| discriminate].
  destruct (map_option f l) as [ys'|] eqn:El; [| discriminate].
  injection Hm as <-; destruct Hx as [<- | Hx].
  - exists y; split; [exact Ez | left; reflexivity].
  - destruct (IH ys' x eq_refl Hx) as [y' [Hy Hin]]; exists y'; split; [exact Hy | right; exact Hin].
Qed.

(** The Latin-1 test of [btoa], as a boolean. *)
Definition latin1b (l : list Z) : bool := forallb (fun c => (0 <=? c) && (c <=? 255)) l.

Lemma latin1b_spec : forall l, latin1b l = true <-> Forall latin1 l.
Proof.
  intros l; unfold latin1b; rewrite forallb_forall, Forall_forall; unfold latin1.
  split; intros H c Hc; specialize (H c Hc).
  - apply andb_true_iff in H as [H1 H2]; apply Z.leb_le in H1, H2; lia.
  - apply andb_true_iff; split; apply Z.leb_le; lia.
Qed.

Lemma btoa_some : forall s tok, btoa s = Some tok ->
  Forall latin1 s /\ tok = b64_core s ++ b64_padding (List.length s).
Proof.
  intros s tok H; unfold btoa in H.
  destruct (forallb _ s) eqn:E; [| discriminate].
  injection H as <-; split; [apply latin1b_spec; exact E | reflexivity].
Qed.

Definition b64_out_ok (v : Z) : bool :=
  is_b64_alphabet (b64_char v) && negb (js_is_trim_space (b64_char v)).

Lemma b64_char_out : forall v, 0 <= v < 64 ->
  is_b64_alphabet (b64_char v) = true /\ js_is_trim_space (b64_char v) = false.
Proof.
  intros v Hv.
  pose proof (check_range b64_out_ok 64 ltac:(vm_compute; reflexivity) v Hv) as H.
  unfold b64_out_ok in H; apply andb_true_iff in H as [H1 H2].
  apply negb_true_iff in H2; split; assumption.
Qed.

(** The characters of [b64_core l]: alphabet letters, none of them [=],
    whitespace for [atob] or whitespace for [trim]. *)
Lemma b64_core_chars : forall l, Forall latin1 l ->
  Forall (fun c => is_b64_alphabet c = true /\ c <> 61 /\ is_ascii_whitespace c = false /\
                   js_is_trim_space c = false) (b64_core l).
Proof.
  intros l Hl; destruct (b64_core_values l Hl) as [vs [Hvs _]].
  induction Hvs as [| c v l' vs' [Hv ->] _ IH]; constructor; [| exact IH].
  destruct (b64_char_props v Hv) as (_ & H61 & Hws).
  destruct (b64_char_out v Hv) as [Ha Ht]; tauto.
Qed.

Lemma b64_padding_cases : forall n,
  b64_padding n = [] \/ b64_padding n = [61] \/ b64_padding n = [61; 61].
Proof.
  intros n; unfold b64_padding; destruct (n mod 3)%nat as [|[|[|k]]]; tauto.
Qed.

Lemma in_rev_of : forall {A} (x : A) l, In x l -> In x (rev l).
Proof. intros A x l H; apply in_rev; rewrite rev_involutive; exact H. Qed.

(** [strip_padding] keeps every character other than [=]. *)
Lemma strip_padding_in : forall d c, In c d -> c <> 61 -> In c (strip_padding d).
Proof.
  intros d c Hc H61; unfold strip_padding.
  destruct (_ =? 0)%nat; [| exact Hc].
  assert (Hr : In c (rev d)) by (apply in_rev_of; exact Hc).
  destruct (rev d) as [| x [| y r]] eqn:E; [destruct Hr | |].
  - destruct (x =? 61) eqn:Ex; [| exact Hc].
    apply Z.eqb_eq in Ex; destruct Hr as [<- | []]; contradiction.
  - destruct (x =? 61) eqn:Ex; destruct (y =? 61) eqn:Ey; cbn [andb]; try exact Hc;
      apply Z.eqb_eq in Ex; try apply Z.eqb_eq in Ey; apply in_rev_of.
    + destruct Hr as [<- | [<- | Hr]]; [contradiction | contradiction | exact Hr].
    + destruct Hr as [<- | Hr]; [contradiction | exact Hr].
Qed.

Lemma strip_padding_no61 : forall d, Forall (fun c => c <> 61) d -> strip_padding d = d.
Proof.
  intros d Hd.
  destruct ((List.length d) mod 4 =? 0)%nat eqn:E.
  - apply Nat.eqb_eq in E.
    pose proof (strip_padding_core d [] Hd) as H; rewrite app_nil_r in H; apply H; [exact E | left; reflexivity].
  - unfold strip_padding; rewrite E; reflexivity.
Qed.

(** The ASCII whitespace [atob] skips is whitespace for [trim] too. *)
Lemma ascii_ws_trim_space : forall c, is_ascii_whitespace c = true -> js_is_trim_space c = true.
Proof.
  intros c H; unfold is_ascii_whitespace in H; simpl in H.
  repeat (apply orb_true_iff in H as [H | H]; [apply Z.eqb_eq in H; subst c; reflexivity |]).
  discriminate.
Qed.

Lemma atob_filter_ws : forall token,
  atob (filter (fun c => negb (is_ascii_whitespace c)) token) = atob token.
Proof. intros token; unfold atob; rewrite filter_idem; reflexivity. Qed.

Lemma decodeToken_filter_ws : forall token,
  decodeToken (filter (fun c => negb (is_ascii_whitespace c)) token) = decodeToken token.
Proof. intros token; unfold decodeToken; rewrite atob_filter_ws; reflexivity. Qed.

Lemma drop_leading_app_all : forall p ws s,
  Forall (fun c => p c = true) ws -> drop_leading p (ws ++ s) = drop_leading p s.
Proof.
  intros p ws s H; induction H as [| c ws Hc _ IH]; simpl; [reflexivity |].
  rewrite Hc; exact IH.
Qed.

Lemma drop_leading_app : forall p s u,
  drop_leading p (s ++ u) =
  match drop_leading p s with [] => drop_leading p u | d => d ++ u end.
Proof.
  intros p s u; induction s as [| c s IH]; simpl; [reflexivity |].
  destruct (p c); [exact IH | reflexivity].
Qed.

Lemma drop_leading_keep : forall p s, Forall (fun c => p c = false) s -> drop_leading p s = s.
Proof. intros p [| c s] H; simpl; [reflexivity |]; inversion H as [| ? ? Hc _]; rewrite Hc; reflexivity. Qed.

(** [trim] ignores white space added at both ends. *)
Lemma js_trim_surround : forall ws1 t ws2,
  Forall (fun c => js_is_trim_space c = true) ws1 ->
  Forall (fun c => js_is_trim_space c = true) ws2 ->
  js_trim (ws1 ++ t ++ ws2) = js_trim t.
Proof.
  intros ws1 t ws2 H1 H2; unfold js_trim.
  rewrite drop_leading_app_all by exact H1.
  rewrite drop_leading_app.
  destruct (drop_leading js_is_trim_space t) as [| c d] eqn:E.
  - rewrite <- (app_nil_r ws2), drop_leading_app_all by exact H2; reflexivity.
  - rewrite rev_app_distr, drop_leading_app_all by (apply Forall_rev; exact H2); reflexivity.
Qed.

Lemma js_trim_keep : forall s, Forall (fun c => js_is_trim_space c = false) s -> js_trim s = s.
Proof.
  intros s H; unfold js_trim; rewrite (drop_leading_keep _ s H).
  rewrite drop_leading_keep by (apply Forall_rev; exact H); apply rev_involutive.
Qed.

Lemma filter_drop_leading : forall (f p : Z -> bool) s,
  (forall c, f c = false -> p c = true) ->
  filter f (drop_leading p s) = drop_leading p (filter f s).
Proof.
  intros f p s Hfp; induction s as [| c s IH]; simpl; [reflexivity |].
  destruct (p c) eqn:Ep; destruct (f c) eqn:Ef; simpl; try rewrite Ep; try rewrite Ef; try exact IH.
  - reflexivity.
  - rewrite (Hfp c Ef) in Ep; discriminate.
Qed.

(** Removing ASCII whitespace commutes with [trim]. *)
Lemma filter_ws_trim : forall s,
  filter (fun c => negb (is_ascii_whitespace c)) (js_trim s) =
  js_trim (filter (fun c => negb (is_ascii_whitespace c)) s).
Proof.
  intros s; unfold js_trim.
  assert (Hfp : forall c, negb (is_ascii_whitespace c) = false -> js_is_trim_space c = true)
    by (intros c Hc; apply ascii_ws_trim_space; apply negb_false_iff; exact Hc).
  rewrite filter_rev, filter_drop_leading, filter_rev, filter_drop_leading by exact Hfp.
  reflexivity.
Qed.

(** A token of [encodeToken] is the base64 core of a Latin-1 text
    followed by its padding. *)
Lemma encodeToken_some : forall row tok, encodeToken row = Some tok ->
  exists s, Forall latin1 s /\ tok = b64_core s ++ b64_padding (List.length s).
Proof.
  intros row tok H; apply btoa_some in H as [Hs ->].
  eexists; split; [exact Hs | reflexivity].
Qed.

Lemma encodeToken_no_trim_space : forall row tok, encodeToken row = Some tok ->
  Forall (fun c => js_is_trim_space c = false) tok.
Proof.
  intros row tok H; apply encodeToken_some in H as [s [Hs ->]].
  apply Forall_app; split.
  - refine (Forall_impl _ _ (b64_core_chars s Hs)); intros c Hc; tauto.
  - destruct (b64_padding_cases (List.length s)) as [-> | [-> | ->]]; repeat constructor.
Qed.

Lemma encode_decode_latin1 : forall row, fields_latin1 row ->
  exists tok, encodeToken row = Some tok /\ decodeToken tok = Some (claim_of row).
Proof.
  intros row (Hi & Hb & Hc).
  pose proof (stringify_payload_latin1 row Hi Hb Hc) as Hl.
  eexists; split; [unfold encodeToken; rewrite btoa_latin1 by exact Hl; reflexivity |].
  unfold decodeToken; rewrite atob_b64 by exact Hl.
  rewrite json_parse_payload by assumption.
  unfold claim_of; simpl.
  replace (jsstr_eqb marker marker) with true by (symmetry; apply jsstr_eqb_eq; reflexivity).
  reflexivity.
Qed.

Lemma claim_of_inj : forall r1 r2, claim_of r1 = claim_of r2 ->
  id r1 = id r2 /\ batch r1 = batch r2 /\ checksum r1 = checksum r2.
Proof. intros r1 r2 H; unfold claim_of in H; simpl in H; injection H; tauto. Qed.

(** X1: a token of [encodeToken] is a run of base64 alphabet letters
    ([A-Z], [a-z], [0-9], [+], [/]) followed by no, one or two [=], and
    its length is a multiple of four. *)
Theorem encodeToken_shape : forall row tok, encodeToken row = Some tok ->
  exists core pad, tok = core ++ pad /\
    Forall (fun c => is_b64_alphabet c = true) core /\
    (pad = [] \/ pad = [61] \/ pad = [61; 61]) /\
    (List.length tok mod 4 = 0)%nat.
Proof.
  intros row tok H; apply encodeToken_some in H as [s [Hs ->]].
  exists (b64_core s), (b64_padding (List.length s)); split; [reflexivity | split; [| split]].
  - refine (Forall_impl _ _ (b64_core_chars s Hs)); intros c Hc; tauto.
  - apply b64_padding_cases.
  - rewrite length_app.
    destruct (b64_core_length s) as [q [[Hl Hp] | [[Hl Hp] | [Hl Hp]]]]; rewrite Hl, Hp;
      simpl List.length.
    + rewrite Nat.add_0_r; apply mod4_mul.
    + replace (4 * q + 2 + 2)%nat with (4 * S q)%nat by lia; apply mod4_mul.
    + replace (4 * q + 3 + 1)%nat with (4 * S q)%nat by lia; apply mod4_mul.
Qed.

Lemma encodeToken_shape_witness :
  exists core pad, token_of med001 = core ++ pad /\
    Forall (fun c => is_b64_alphabet c = true) core /\
    (pad = [] \/ pad = [61] \/ pad = [61; 61]) /\
    (List.length (token_of med001) mod 4 = 0)%nat.
Proof. apply (encodeToken_shape med001); vm_compute; reflexivity. Defined.

(** X2: on records whose id, batch and checksum are Latin-1, two records
    get the same token exactly when they agree on id, batch and checksum. *)
Theorem encodeToken_injective : forall r1 r2, fields_latin1 r1 -> fields_latin1 r2 ->
  (encodeToken r1 = encodeToken r2 <->
   id r1 = id r2 /\ batch r1 = batch r2 /\ checksum r1 = checksum r2).
Proof.
  intros r1 r2 H1 H2; split.
  - destruct (encode_decode_latin1 r1 H1) as [t1 [E1 D1]].
    destruct (encode_decode_latin1 r2 H2) as [t2 [E2 D2]].
    rewrite E1, E2; intros Ht; injection Ht as <-.
    rewrite D1 in D2; apply claim_of_inj; congruence.
  - intros (Hi & Hb & Hc); unfold encodeToken, payload; rewrite Hi, Hb, Hc; reflexivity.
Qed.

(** ASCII strings are Latin-1. *)
Ltac latin1_fields :=
  split; [| split]; apply latin1b_spec; vm_compute; reflexivity.

Lemma encodeToken_injective_witness :
  fields_latin1 med001 /\ fields_latin1 med001_forged /\
  encodeToken med001 <> encodeToken med001_forged.
Proof.
  assert (H1 : fields_latin1 med001) by latin1_fields.
  assert (H2 : fields_latin1 med001_forged) by latin1_fields.
  split; [exact H1 | split; [exact H2 |]].
  intros E; apply (encodeToken_injective med001 med001_forged H1 H2) in E.
  destruct E as (_ & _ & Ec); vm_compute in Ec; discriminate.
Defined.

(** X3: [decodeToken] ignores ASCII whitespace (tab, line feed, form
    feed, carriage return, space) anywhere in the token. *)
Theorem decodeToken_ignores_ascii_ws : forall token,
  decodeToken (filter (fun c => negb (is_ascii_whitespace c)) token) = decodeToken token.
Proof. intros token; unfold decodeToken; rewrite atob_filter_ws; reflexivity. Qed.

(** X4: a token containing a character that is neither a base64 letter,
    nor [=], nor ASCII whitespace is rejected. *)
Theorem decodeToken_rejects_foreign_char : forall token c,
  In c token -> is_b64_alphabet c = false -> c <> 61 -> is_ascii_whitespace c = false ->
  decodeToken token = None.
Proof.
  intros token c Hin Ha H61 Hws; unfold decodeToken, atob.
  set (d := strip_padding _).
  assert (Hd : In c d).
  { apply strip_padding_in; [| exact H61].
    apply filter_In; split; [exact Hin | rewrite Hws; reflexivity]. }
  assert (Hv : b64_value c = None) by (unfold is_b64_alphabet in Ha; destruct (b64_value c); congruence).
  rewrite (map_option_none _ _ _ Hd Hv).
  destruct (_ =? 1)%nat; reflexivity.
Qed.

Lemma decodeToken_rejects_foreign_char_witness :
  decodeToken (token_of med001 ++ js "!") = None.
Proof.
  apply (decodeToken_rejects_foreign_char _ 33).
  - apply in_or_app; right; left; reflexivity.
  - reflexivity.
  - discriminate.
  - reflexivity.
Defined.

(** X5: a token whose length, ASCII whitespace removed, is one more than
    a multiple of four is rejected (a truncated token, for example). *)
Theorem decodeToken_rejects_length_mod4_1 : forall token,
  (List.length (filter (fun c => negb (is_ascii_whitespace c)) token) mod 4 = 1)%nat ->
  decodeToken token = None.
Proof.
  intros token H; unfold decodeToken, atob.
  set (d := filter _ token) in *.
  assert (Hs : strip_padding d = d) by (unfold strip_padding; rewrite H; reflexivity).
  rewrite Hs, H; reflexivity.
Qed.

Lemma decodeToken_rejects_length_mod4_1_witness :
  decodeToken (firstn 33 (token_of med001)) = None.
Proof. apply decodeToken_rejects_length_mod4_1; vm_compute; reflexivity. Defined.

(** X6: dropping the [=] padding of a token of [encodeToken] does not
    change what [decodeToken] makes of it. *)
Theorem decodeToken_padding_optional : forall row tok, encodeToken row = Some tok ->
  decodeToken (filter (fun c => negb (c =? 61)) tok) = decodeToken tok.
Proof.
  intros row tok H; apply encodeToken_some in H as [s [Hs ->]].
  pose proof (b64_core_chars s Hs) as Hc.
  assert (Hf : filter (fun c => negb (c =? 61)) (b64_core s ++ b64_padding (List.length s))
               = b64_core s).
  { rewrite filter_app, filter_all_true.
    - destruct (b64_padding_cases (List.length s)) as [-> | [-> | ->]]; apply app_nil_r.
    - intros c Hin; rewrite Forall_forall in Hc; destruct (Hc c Hin) as (_ & H61 & _).
      apply negb_true_iff, Z.eqb_neq, H61. }
  rewrite Hf; unfold decodeToken; rewrite (atob_b64 s Hs).
  destruct (b64_core_values s Hs) as [vs [Hvs Hdec]].
  replace (atob (b64_core s)) with (Some s); [reflexivity |].
  unfold atob; rewrite filter_all_true
    by (intros c Hin; rewrite Forall_forall in Hc; destruct (Hc c Hin) as (_ & _ & Hw & _);
        rewrite Hw; reflexivity).
  rewrite strip_padding_no61
    by (refine (Forall_impl _ _ Hc); intros c Hc1; tauto).
  rewrite (map_option_alpha _ _ Hvs), Hdec.
  destruct (b64_core_length s) as [q [[Hl _] | [[Hl _] | [Hl _]]]]; rewrite Hl;
    [rewrite mod4_mul | rewrite mod4_shift | rewrite mod4_shift]; reflexivity.
Qed.

Lemma decodeToken_padding_optional_witness :
  decodeToken (filter (fun c => negb (c =? 61)) (token_of med001)) = decodeToken (token_of med001).
Proof. apply (decodeToken_padding_optional med001); vm_compute; reflexivity. Defined.

(** X7: white space (as [trim] knows it) added before or after a token
    does not change the call. *)
Theorem handleVerify_ignores_surrounding_space : forall tz L ws1 token ws2 w,
  Forall (fun c => js_is_trim_space c = true) ws1 ->
  Forall (fun c => js_is_trim_space c = true) ws2 ->
  handleVerify tz L (ws1 ++ token ++ ws2) w = handleVerify tz L token w.
Proof.
  intros tz L ws1 token ws2 w H1 H2; unfold handleVerify, handle_verify_state.
  rewrite js_trim_surround by assumption; reflexivity.
Qed.

Lemma handleVerify_ignores_surrounding_space_witness :
  handleVerify 0 mockLedger ([32; 160] ++ token_of med001 ++ [10]) (world_at t_2026_01_01)
  = handleVerify 0 mockLedger (token_of med001) (world_at t_2026_01_01).
Proof.
  apply handleVerify_ignores_surrounding_space; repeat constructor.
Defined.

(** X8: an empty or blank input is an invalid token: the result says so,
    the duplicate flag is cleared and the seen-set is left as it is. *)
Theorem handleVerify_blank_input : forall tz L token w,
  Forall (fun c => js_is_trim_space c = true) token ->
  handleVerify tz L token w =
  mk_world (mk_state (scanned (ui w)) false (Some res_invalid_token)) (system_clock w).
Proof.
  intros tz L token w H; unfold handleVerify; f_equal.
  apply handle_decode_none.
  pose proof (js_trim_surround token [] [] H (Forall_nil _)) as Ht.
  rewrite !app_nil_r in Ht; rewrite Ht; reflexivity.
Qed.

Lemma handleVerify_blank_input_witness :
  handleVerify 0 mockLedger [] (world_at t_2026_01_01) =
  mk_world (mk_state [] false (Some res_invalid_token)) t_2026_01_01.
Proof. apply (handleVerify_blank_input 0 mockLedger [] (world_at t_2026_01_01)); constructor. Defined.

(** X9: ASCII whitespace anywhere in the pasted token (a line break in a
    wrapped token, for example) does not change the call. *)
Theorem handleVerify_ignores_ascii_ws : forall tz L token w,
  handleVerify tz L (filter (fun c => negb (is_ascii_whitespace c)) token) w =
  handleVerify tz L token w.
Proof.
  intros tz L token w; unfold handleVerify, handle_verify_state.
  rewrite <- filter_ws_trim, decodeToken_filter_ws; reflexivity.
Qed.

(** One call keeps the seen-set free of repetitions, and adds only the
    key of a ledger record. *)
Lemma handle_scanned_step : forall tz L now token st,
  scanned (handle_verify_state tz L now token st) = scanned st \/
  exists m, In m L /\ ~ In (identity_key (id m) (batch m) (checksum m)) (scanned st) /\
    scanned (handle_verify_state tz L now token st) =
    scanned st ++ [identity_key (id m) (batch m) (checksum m)].
Proof.
  intros tz L now token st.
  destruct (handle_cases tz L now token st) as [[_ ->] | [[d [_ [_ ->]]] | [d [m [_ [Hf H]]]]]];
    [left; reflexivity | left; reflexivity |].
  rewrite H; simpl.
  destruct (scanned_has _ st) eqn:Eh; [left; reflexivity | right].
  exists m; split; [apply find_some in Hf; apply Hf | split; [| reflexivity]].
  intros Hin; apply scanned_has_In in Hin; congruence.
Qed.


Lemma handle_nodup : forall tz L now token st,
  NoDup (scanned st) -> NoDup (scanned (handle_verify_state tz L now token st)).
Proof.
  intros tz L now token st Hn.
  destruct (handle_scanned_step tz L now token st) as [-> | [m [_ [Hnot ->]]]]; [exact Hn |].
  apply NoDup_app; [exact Hn | repeat constructor; simpl; tauto |].
  intros k Hk [<- | []]; contradiction.
Qed.

(** Any sequence of calls keeps the seen-set without repetitions. *)
Lemma run_scanned_nodup : forall tz L calls w,
  NoDup (scanned (ui w)) -> NoDup (scanned (ui (run tz L calls w))).
Proof.
  intros tz L calls; induction calls as [|[clock token] calls IH]; intros w Hn; simpl;
    [exact Hn |].
  apply IH; simpl; apply handle_nodup; exact Hn.
Qed.

(** The calls of a demo session: MED-001, a garbage string, MED-001
    again, MED-004. *)
Definition demo_calls : list (Z * jsstr) :=
  [(t_2026_01_01, token_of med001); (t_2026_01_01, js "not a token");
   (t_2026_01_01, token_of med001); (t_2026_01_01, token_of med004)].

(** X11: every key a sequence of calls adds to the seen-set is the key
    [id-batch-checksum] of a ledger record: garbage tokens and unmatched
    claims never enter it. *)
Theorem run_scanned_ledger_keys : forall tz L calls w k,
  In k (scanned (ui (run tz L calls w))) ->
  In k (scanned (ui w)) \/
  exists r, In r L /\ k = identity_key (id r) (batch r) (checksum r).
Proof.
  intros tz L calls; induction calls as [|[clock token] calls IH]; intros w k Hk; simpl in *;
    [left; exact Hk |].
  destruct (IH _ k Hk) as [Hin | Hr]; [| right; exact Hr].
  simpl in Hin.
  destruct (handle_scanned_step tz L clock token (ui w)) as [E | [m [Hm [_ E]]]];
    rewrite E in Hin; [left; exact Hin |].
  apply in_app_or in Hin as [Hin | [<- | []]]; [left; exact Hin | right; exists m; split; [exact Hm | reflexivity]].
Qed.

Lemma run_scanned_ledger_keys_witness :
  In (identity_key (js "MED-001") (js "B456789") (js "f9a2"))
     (scanned (ui (run 0 mockLedger demo_calls (world_at t_2026_01_01)))) /\
  exists r, In r mockLedger /\
    identity_key (js "MED-001") (js "B456789") (js "f9a2") = identity_key (id r) (batch r) (checksum r).
Proof.
  assert (H : In (identity_key (js "MED-001") (js "B456789") (js "f9a2"))
                 (scanned (ui (run 0 mockLedger demo_calls (world_at t_2026_01_01)))))
    by (vm_compute; left; reflexivity).
  split; [exact H |].
  destruct (run_scanned_ledger_keys 0 mockLedger demo_calls (world_at t_2026_01_01) _ H)
    as [[] | Hr]; exact Hr.
Defined.

(** X12: from an empty seen-set, no sequence of calls stores more keys
    than the ledger has records. *)
Theorem run_scanned_bounded : forall tz L calls w,
  scanned (ui w) = [] ->
  (List.length (scanned (ui (run tz L calls w))) <= List.length L)%nat.
Proof.
  intros tz L calls w H0.
  rewrite <- (length_map (fun r => identity_key (id r) (batch r) (checksum r)) L).
  apply NoDup_incl_length.
  - apply run_scanned_nodup; rewrite H0; constructor.
  - intros k Hk; destruct (run_scanned_ledger_keys tz L calls w k Hk) as [Hin | [r [Hr ->]]].
    + rewrite H0 in Hin; destruct Hin.
    + apply (in_map (fun r => identity_key (id r) (batch r) (checksum r))); exact Hr.
Qed.

Lemma run_scanned_bounded_witness :
  (List.length (scanned (ui (run 0 mockLedger demo_calls (world_at t_2026_01_01)))) <= 4)%nat.
Proof. apply (run_scanned_bounded 0 mockLedger demo_calls (world_at t_2026_01_01)); reflexivity. Defined.

(** X13: after a call, the duplicate-scan banner is on screen exactly
    when the call matched a ledger record, the verdict is success, and
    the record's key was already in the seen-set: a repeated scan of a
    recalled or expired batch shows no duplicate banner. *)
Theorem duplicate_banner_iff : forall tz L token w,
  duplicate_banner_shown (ui (handleVerify tz L token w)) = true <->
  exists d m, decodeToken (js_trim token) = Some d /\ find (record_matches d) L = Some m /\
    ok (verdict tz (system_clock w) m) = true /\
    In (identity_key (id m) (batch m) (checksum m)) (scanned (ui w)).
Proof.
  intros tz L token w; unfold handleVerify, duplicate_banner_shown; simpl.
  destruct (handle_cases tz L (system_clock w) token (ui w))
    as [[Hn ->] | [[d [Hd [Hf ->]]] | [d [m [Hd [Hf ->]]]]]]; simpl.
  - split; [discriminate |]; intros (d & m & Hd & _); congruence.
  - split; [discriminate |]; intros (d' & m & Hd' & Hf' & _); congruence.
  - rewrite andb_true_iff, scanned_has_In; split.
    + intros [Ho Hin]; exists d, m; tauto.
    + intros (d' & m' & Hd' & Hf' & Ho & Hin).
      rewrite Hd in Hd'; injection Hd' as <-; rewrite Hf in Hf'; injection Hf' as <-; tauto.
Qed.

Lemma ledger_view_rows : forall to_lower L query filter view,
  ledger_view to_lower L query filter = Some view ->
  exists rows, map_option (fun r => option_map (mk_row r) (encodeToken r)) L = Some rows /\
    view = List.filter (fun vr => matchesText to_lower query (row_record vr)
                                  && matchesFilter filter (row_record vr)) rows.
Proof.
  intros to_lower L query filter view H; unfold ledger_view in H.
  destruct (map_option _ L) as [rows|]; [| discriminate].
  injection H as <-; exists rows; split; reflexivity.
Qed.

Lemma map_option_rows : forall L rows,
  map_option (fun r => option_map (mk_row r) (encodeToken r)) L = Some rows ->
  map row_record rows = L /\ Forall (fun vr => encodeToken (row_record vr) = Some (token vr)) rows.
Proof.
  induction L as [|r L IH]; simpl; intros rows H.
  - injection H as <-; split; constructor.
  - destruct (encodeToken r) as [t|] eqn:E; [| discriminate]; simpl in H.
    destruct (map_option _ L) as [rows'|]; [| discriminate].
    injection H as <-; destruct (IH rows' eq_refl) as [H1 H2].
    split; [simpl; rewrite H1; reflexivity | constructor; [exact E | exact H2]].
Qed.

Lemma starts_with_refl : forall s, starts_with s s = true.
Proof. induction s as [|c s IH]; simpl; [reflexivity |]; rewrite Z.eqb_refl; exact IH. Qed.

Lemma js_includes_refl : forall s, js_includes s s = true.
Proof. intros [|c s]; simpl; [reflexivity |]; rewrite Z.eqb_refl, starts_with_refl; reflexivity. Qed.

(** X14: every card of the grid shows a ledger record together with the
    token [encodeToken] makes of it. *)
Theorem ledger_view_tokens : forall to_lower L query filter view vr,
  ledger_view to_lower L query filter = Some view -> In vr view ->
  In (row_record vr) L /\ encodeToken (row_record vr) = Some (token vr).
Proof.
  intros to_lower L query filter view vr H Hin.
  destruct (ledger_view_rows _ _ _ _ _ H) as [rows [Hr ->]].
  apply filter_In in Hin as [Hin _].
  destruct (map_option_rows L rows Hr) as [Hm Hf].
  split.
  - rewrite <- Hm; apply in_map; exact Hin.
  - rewrite Forall_forall in Hf; apply Hf, Hin.
Qed.

Lemma ledger_view_tokens_witness :
  match ledger_view ascii_lower mockLedger (js "para") (js "all") with
  | Some (vr :: _) => In (row_record vr) mockLedger /\ encodeToken (row_record vr) = Some (token vr)
  | _ => False
  end.
Proof.
  destruct (ledger_view ascii_lower mockLedger (js "para") (js "all")) as [[|vr rest]|] eqn:E;
    [vm_compute in E; discriminate | | vm_compute in E; discriminate].
  apply (ledger_view_tokens ascii_lower mockLedger (js "para") (js "all") (vr :: rest) vr E).
  left; reflexivity.
Defined.

(** X15: with a blank search text and the filter "all", the grid shows
    every ledger record, in ledger order, provided every record can be
    encoded. *)
Theorem ledger_view_blank_all : forall to_lower L query,
  (forall r, In r L -> encodeToken r <> None) ->
  Forall (fun c => js_is_trim_space c = true) query ->
  exists view, ledger_view to_lower L query (js "all") = Some view /\ map row_record view = L.
Proof.
  intros to_lower L query HL Hq.
  destruct (map_option_some (fun r => option_map (mk_row r) (encodeToken r)) L) as [rows Hr].
  { intros r Hin; specialize (HL r Hin); destruct (encodeToken r); [discriminate | contradiction]. }
  exists rows; unfold ledger_view; rewrite Hr; split; [f_equal |].
  - apply filter_all_true; intros vr _.
    assert (Ht : js_trim query = []).
    { pose proof (js_trim_surround query [] [] Hq (Forall_nil _)) as Ht.
      rewrite !app_nil_r in Ht; rewrite Ht; reflexivity. }
    unfold matchesText, matchesFilter; rewrite Ht; reflexivity.
  - apply (map_option_rows L rows Hr).
Qed.

Ltac mock_encodes :=
  intros r Hr; simpl in Hr; repeat destruct Hr as [<- | Hr]; [vm_compute; discriminate ..| destruct Hr].

Lemma ledger_view_blank_all_witness :
  exists view, ledger_view ascii_lower mockLedger (js "  ") (js "all") = Some view /\
               map row_record view = mockLedger.
Proof. apply ledger_view_blank_all; [mock_encodes | repeat constructor]. Defined.

(** X16: with a filter other than "all", every card shown has exactly
    that status (a filter value no record has shows an empty grid). *)
Theorem ledger_view_status_filter : forall to_lower L query filter view vr,
  ledger_view to_lower L query filter = Some view -> In vr view ->
  filter <> js "all" -> status (row_record vr) = filter.
Proof.
  intros to_lower L query filter view vr H Hin Hall.
  destruct (ledger_view_rows _ _ _ _ _ H) as [rows [_ ->]].
  apply filter_In in Hin as [_ Hm]; apply andb_true_iff in Hm as [_ Hf].
  unfold matchesFilter in Hf.
  destruct (jsstr_eqb filter (js "all")) eqn:E; [apply jsstr_eqb_eq in E; contradiction |].
  apply jsstr_eqb_eq, Hf.
Qed.

Lemma ledger_view_status_filter_witness :
  match ledger_view ascii_lower mockLedger [] (js "recalled") with
  | Some (vr :: _) => status (row_record vr) = js "recalled"
  | _ => False
  end.
Proof.
  destruct (ledger_view ascii_lower mockLedger [] (js "recalled")) as [[|vr rest]|] eqn:E;
    [vm_compute in E; discriminate | | vm_compute in E; discriminate].
  apply (ledger_view_status_filter ascii_lower mockLedger [] (js "recalled") (vr :: rest) vr E);
    [left; reflexivity | discriminate].
Defined.

(** X17: searching for a record's exact id, batch or name shows its card
    (with its token) whenever the status filter admits the record,
    whatever the case mapping of [toLowerCase]. *)
Theorem ledger_view_search_exact : forall to_lower L query filter view r,
  ledger_view to_lower L query filter = Some view -> In r L ->
  (query = id r \/ query = batch r \/ query = name r) ->
  (filter = js "all" \/ status r = filter) ->
  exists t, encodeToken r = Some t /\ In (mk_row r t) view.
Proof.
  intros to_lower L query filter view r H Hin Hq Hf.
  destruct (ledger_view_rows _ _ _ _ _ H) as [rows [Hr ->]].
  destruct (map_option_in _ L rows r Hr Hin) as [vr [Hvr Hvin]].
  destruct (encodeToken r) as [t|] eqn:E; [| discriminate]; injection Hvr as <-.
  exists t; split; [reflexivity |]; apply filter_In; split; [exact Hvin |].
  apply andb_true_iff; split; simpl.
  - unfold matchesText; destruct Hq as [-> | [-> | ->]]; rewrite js_includes_refl;
      rewrite ?orb_true_r; reflexivity.
  - unfold matchesFilter; destruct Hf as [-> | <-]; [reflexivity |].
    destruct (jsstr_eqb (status r) (js "all")); [reflexivity |].
    apply jsstr_eqb_eq; reflexivity.
Qed.

Lemma ledger_view_search_exact_witness :
  exists t, encodeToken med004 = Some t /\
  match ledger_view ascii_lower mockLedger (js "I220015") (js "recalled") with
  | Some view => In (mk_row med004 t) view
  | None => False
  end.
Proof.
  destruct (ledger_view ascii_lower mockLedger (js "I220015") (js "recalled")) as [view|] eqn:E;
    [| vm_compute in E; discriminate].
  apply (ledger_view_search_exact ascii_lower mockLedger (js "I220015") (js "recalled") view med004 E).
  - right; right; right; left; reflexivity.
  - right; left; reflexivity.
  - right; reflexivity.
Defined.

(** X18: a single record whose token cannot be made ([btoa] throws)
    makes the whole grid fail, whatever the search text and filter,
    even one that would hide that record: the tokens are computed before
    the filtering. *)
Theorem ledger_view_throws : forall to_lower L query filter r,
  In r L -> encodeToken r = None -> ledger_view to_lower L query filter = None.
Proof.
  intros to_lower L query filter r Hin E; unfold ledger_view.
  rewrite (map_option_none _ L r Hin); [reflexivity |]; rewrite E; reflexivity.
Qed.

(** A record whose batch code carries the rupee sign U+20B9. *)
Definition med_rupee_batch := mk_record (js "MED-005") (js "Azithromycin 500mg (3 tabs)")
  (8377 :: js "5001") (js "2025-10-01") (js "2027-09-30") (js "XYZ Pharma Pvt Ltd")
  (js "Sunrise Distributors") (js "Sahil Medicals (Chembur)") (js "a5e1") (js "active").

Lemma ledger_view_throws_witness :
  ledger_view ascii_lower (mockLedger ++ [med_rupee_batch]) (js "MED-001") (js "active") = None.
Proof.
  apply (ledger_view_throws _ _ _ _ med_rupee_batch).
  - apply in_or_app; right; left; reflexivity.
  - vm_compute; reflexivity.
Defined.

(** X19: on first render (empty search text, filter "all", empty verify
    box) the effect fills the box with the first record's token, and
    verifying that token matches the first record and reports its
    verdict, when the id, batch and checksum of every record are
    Latin-1. *)
Theorem autofill_first_row_verifies : forall to_lower tz L r0 rest w,
  L = r0 :: rest -> Forall fields_latin1 L ->
  exists view, ledger_view to_lower L [] (js "all") = Some view /\
    encodeToken r0 = Some (autofill view []) /\
    verifyResult (ui (handleVerify tz L (autofill view []) w)) =
    Some (verdict tz (system_clock w) r0).
Proof.
  intros to_lower tz L r0 rest w HL Hlat.
  assert (Henc : forall r, In r L -> option_map (mk_row r) (encodeToken r) <> None).
  { intros r Hr; rewrite Forall_forall in Hlat.
    destruct (encode_decode_latin1 r (Hlat r Hr)) as [t [E _]]; rewrite E; discriminate. }
  destruct (map_option_some (fun r => option_map (mk_row r) (encodeToken r)) L Henc) as [rows Hr].
  assert (H0 : fields_latin1 r0) by (rewrite Forall_forall in Hlat; apply Hlat; rewrite HL; left; reflexivity).
  destruct (encode_decode_latin1 r0 H0) as [t0 [E0 D0]].
  rewrite HL in Hr; simpl in Hr; rewrite E0 in Hr; simpl in Hr.
  destruct (map_option _ rest) as [rows'|] eqn:Er; [| discriminate].
  injection Hr as <-.
  set (keep := fun vr => matchesText to_lower [] (row_record vr) && matchesFilter (js "all") (row_record vr)).
  exists (mk_row r0 t0 :: List.filter keep rows'); split; [| split].
  - unfold ledger_view; rewrite HL; simpl; rewrite E0, Er; reflexivity.
  - exact E0.
  - simpl autofill; unfold handleVerify; simpl ui.
    assert (Ht : js_trim t0 = t0) by (apply js_trim_keep, (encodeToken_no_trim_space r0), E0).
    assert (Hf : find (record_matches (claim_of r0)) L = Some r0).
    { rewrite HL; simpl.
      replace (record_matches (claim_of r0) r0) with true; [reflexivity |].
      symmetry; apply record_matches_spec; unfold triple_equal, claim_of; simpl; tauto. }
    assert (D0' : decodeToken (js_trim t0) = Some (claim_of r0)) by (rewrite Ht; exact D0).
    rewrite (handle_match tz L (system_clock w) t0 (ui w) _ r0 D0' Hf); reflexivity.
Qed.

Lemma autofill_first_row_verifies_witness :
  exists view, ledger_view ascii_lower mockLedger [] (js "all") = Some view /\
    encodeToken med001 = Some (autofill view []) /\
    verifyResult (ui (handleVerify 0 mockLedger (autofill view []) (world_at t_2026_01_01))) =
    Some (verdict 0 t_2026_01_01 med001).
Proof.
  apply (autofill_first_row_verifies ascii_lower 0 mockLedger med001 (tl mockLedger)); [reflexivity |].
  apply Forall_forall; intros r Hr; simpl in Hr;
    repeat destruct Hr as [<- | Hr]; [latin1_fields .. | destruct Hr].
Defined.
